(** * Wallet ledger and booking acceptance of arabi-rent-home

    A shallow embedding of the wallet context (WalletContext: [fetchTransactions],
    [deductCommission], [rechargeWallet], [checkAccountStatus]), of the parts
    of the auth context it reads (AuthContext: [userData], [fetchUserData]),
    of the booking screen (BookingManagement: [fetchBookings],
    [handleBookingAction], [confirmBookingAcceptance]) and of the recharge
    dialog (WalletManagement: [handleRecharge]).

    Conventions of the embedding.
    - A JavaScript [number] holding a currency amount is an exact rational
      ([Qc]); [undefined] is [None].  Rounding of IEEE doubles is not
      modelled; every concrete example below uses amounts on which double
      arithmetic is exact.
    - The Firestore database is a record of collections.  Every call to it
      ([addDoc], [updateDoc], [getDoc], [getDocs]) is one round trip: it is
      appended to a log, it advances a logical clock, and it may reject,
      as decided by a schedule of faults carried in the state.
    - An [async] function is a state-and-exception computation [M A]; a
      rejected promise is [Throw].  React state written by a [set...] call
      is a field of the application state. *)

From Stdlib Require Import QArith Qcanon Sorted.
From stdpp Require Import base option list strings gmap numbers.

(** ** Numbers *)

(** [x || 0] on an optional number ([undefined] and [0] both give [0]). *)
Definition or_zero (x : option Qc) : Qc := default 0%Qc x.

(** Truthiness of an optional number: [undefined] and [0] are falsy. *)
Definition truthy (x : option Qc) : bool :=
  match x with
  | Some v => bool_decide (v ≠ 0%Qc)
  | None => false
  end.

(** ** Data model *)

Inductive Role := owner | renter.
Inductive AccountStatus := active | suspended.
Inductive BookingStatus := pending | accepted | rejected.
Inductive TransactionType := commission | payment | recharge.

Global Instance Role_eq_dec : EqDecision Role.
Proof. solve_decision. Defined.
Global Instance AccountStatus_eq_dec : EqDecision AccountStatus.
Proof. solve_decision. Defined.
Global Instance BookingStatus_eq_dec : EqDecision BookingStatus.
Proof. solve_decision. Defined.

(** Firestore [Timestamp]s and JavaScript [Date]s: ticks of the logical clock. *)
Definition Timestamp := nat.

(** A template literal: text with interpolated numbers.  [Currency q] stands
    for [formatCurrency(q)]. *)
Inductive Piece := Str (s : string) | Num (q : Qc) | Currency (q : Qc).
Definition Text := list Piece.

(** [UserData] of AuthContext; also the shape of a document of ['users']. *)
Record UserData := mkUserData {
  uid : string;
  name : string;
  email : string;
  role : Role;
  phone : option string;
  registrationDate : Timestamp;
  walletBalance : option Qc;
  accountStatus : option AccountStatus;
  lastTransactionDate : option Timestamp
}.

(** A document of ['transactions'] ([WalletTransaction] without its [id]). *)
Record TransactionDoc := mkTransactionDoc {
  userId : string;
  type : TransactionType;
  amount : Qc;
  description : Text;
  bookingId : option string;
  propertyId : option string;
  timestamp : Timestamp;
  balanceAfter : Qc
}.

(** [WalletTransaction]: a transaction document with its document id. *)
Record WalletTransaction := mkWalletTransaction {
  tx_id : nat;
  tx_doc : TransactionDoc
}.

(** A document of ['bookings']. *)
Record BookingDoc := mkBookingDoc {
  b_renterId : string;
  b_ownerId : string;
  b_propertyId : string;
  b_startDate : Timestamp;
  b_endDate : Timestamp;
  b_message : string;
  b_status : BookingStatus;
  b_timestamp : Timestamp
}.

(** A document of ['properties'] (the fields the booking screen reads). *)
Record PropertyDoc := mkPropertyDoc {
  p_ownerId : string;
  p_title : option string;
  p_pricePerMonth : option Qc
}.

(** [Booking] of BookingManagement: [{ id, ...bookingData, renterName,
    propertyTitle, rentalAmount }]. *)
Record Booking := mkBooking {
  id : string;
  spread : BookingDoc;
  renterName : string;
  propertyTitle : string;
  rentalAmount : option Qc
}.

Definition set_status (st : BookingStatus) (d : BookingDoc) : BookingDoc :=
  {| b_renterId := b_renterId d; b_ownerId := b_ownerId d;
     b_propertyId := b_propertyId d; b_startDate := b_startDate d;
     b_endDate := b_endDate d; b_message := b_message d;
     b_status := st; b_timestamp := b_timestamp d |}.

(** [{ ...booking, status }]. *)
Definition with_status (st : BookingStatus) (b : Booking) : Booking :=
  {| id := id b; spread := set_status st (spread b);
     renterName := renterName b; propertyTitle := propertyTitle b;
     rentalAmount := rentalAmount b |}.

(** The [action] parameter of [handleBookingAction]: ['accepted' | 'rejected']. *)
Inductive BookingAction := action_accepted | action_rejected.

Definition status_of_action (a : BookingAction) : BookingStatus :=
  match a with action_accepted => accepted | action_rejected => rejected end.

(** Toasts. *)
Inductive ToastVariant := default_variant | destructive.
Record Toast := mkToast {
  title : string;
  toast_description : Text;
  variant : ToastVariant
}.

(** ** The store and its calls *)

Inductive StoreOp :=
| op_addDoc_transactions (d : TransactionDoc)
| op_updateDoc_users (u : string)
| op_updateDoc_bookings (b : string) (st : BookingStatus)
| op_getDoc_users (u : string)
| op_getDocs_transactions (u : string)
| op_getDocs_properties (u : string)
| op_getDocs_bookings (u : string).

Inductive Error :=
| StoreError (op : StoreOp)   (* the call was rejected (network, permission) *)
| NotFound (op : StoreOp).    (* [updateDoc] on a document that does not exist *)

Module Db.
(** The Firestore collections. ['transactions'] is kept in insertion
    order; the id of a transaction document is its position. *)
Record t := mk {
  users : gmap string UserData;
  transactions : list TransactionDoc;
  bookings : gmap string BookingDoc;
  properties : gmap string PropertyDoc
}.
End Db.

(** The backend: the database, the clock read by [Timestamp.now()], the
    outcomes of the round trips to come ([true]: the call rejects; an
    exhausted schedule means every further call succeeds) and the log of the
    round trips made so far, oldest first. *)
Record World := mkWorld {
  db : Db.t;
  clock : Timestamp;
  faults : list bool;
  log : list StoreOp
}.

(** AuthContext state. *)
Record Auth := mkAuth {
  currentUser : option string;
  userData : option UserData
}.

Module WalletCtx.
(** State of [WalletProvider]. *)
Record t := mk {
  transactions : list WalletTransaction;
  loading : bool
}.
End WalletCtx.

Module BookingMgmt.
(** State of the [BookingManagement] component. *)
Record t := mk {
  bookings : list Booking;
  loading : bool;
  showCommissionDialog : bool;
  selectedBooking : option Booking
}.
End BookingMgmt.

Module WalletMgmt.
(** State of the [WalletManagement] component.  [rechargeAmount] is kept as
    [parseFloat] reads it: [None] when the text is not a number ([NaN]). *)
Record t := mk {
  rechargeAmount : option Qc;
  rechargeLoading : bool;
  showRechargeDialog : bool
}.
End WalletMgmt.

(** The whole application. [toasts] lists the toasts shown, oldest first;
    [reloadRequested] records a call to [window.location.reload()] (also
    one scheduled through [setTimeout]). *)
Record App := mkApp {
  world : World;
  auth : Auth;
  walletCtx : WalletCtx.t;
  bookingMgmt : BookingMgmt.t;
  walletMgmt : WalletMgmt.t;
  toasts : list Toast;
  reloadRequested : bool
}.


(** ** Field updates *)

Definition upd_users (f : gmap string UserData → gmap string UserData)
    (d : Db.t) : Db.t :=
  {| Db.users := f (Db.users d); Db.transactions := Db.transactions d;
     Db.bookings := Db.bookings d; Db.properties := Db.properties d |}.

Definition upd_transactions (f : list TransactionDoc → list TransactionDoc)
    (d : Db.t) : Db.t :=
  {| Db.users := Db.users d; Db.transactions := f (Db.transactions d);
     Db.bookings := Db.bookings d; Db.properties := Db.properties d |}.

Definition upd_bookings (f : gmap string BookingDoc → gmap string BookingDoc)
    (d : Db.t) : Db.t :=
  {| Db.users := Db.users d; Db.transactions := Db.transactions d;
     Db.bookings := f (Db.bookings d); Db.properties := Db.properties d |}.

Definition upd_db (f : Db.t → Db.t) (w : World) : World :=
  {| db := f (db w); clock := clock w; faults := faults w; log := log w |}.

Definition on_world (f : World → World) (s : App) : App :=
  {| world := f (world s); auth := auth s; walletCtx := walletCtx s;
     bookingMgmt := bookingMgmt s; walletMgmt := walletMgmt s;
     toasts := toasts s; reloadRequested := reloadRequested s |}.

Definition on_auth (f : Auth → Auth) (s : App) : App :=
  {| world := world s; auth := f (auth s); walletCtx := walletCtx s;
     bookingMgmt := bookingMgmt s; walletMgmt := walletMgmt s;
     toasts := toasts s; reloadRequested := reloadRequested s |}.

Definition on_walletCtx (f : WalletCtx.t → WalletCtx.t) (s : App) : App :=
  {| world := world s; auth := auth s; walletCtx := f (walletCtx s);
     bookingMgmt := bookingMgmt s; walletMgmt := walletMgmt s;
     toasts := toasts s; reloadRequested := reloadRequested s |}.

Definition on_bookingMgmt (f : BookingMgmt.t → BookingMgmt.t) (s : App) : App :=
  {| world := world s; auth := auth s; walletCtx := walletCtx s;
     bookingMgmt := f (bookingMgmt s); walletMgmt := walletMgmt s;
     toasts := toasts s; reloadRequested := reloadRequested s |}.

Definition on_walletMgmt (f : WalletMgmt.t → WalletMgmt.t) (s : App) : App :=
  {| world := world s; auth := auth s; walletCtx := walletCtx s;
     bookingMgmt := bookingMgmt s; walletMgmt := f (walletMgmt s);
     toasts := toasts s; reloadRequested := reloadRequested s |}.

(** ** Asynchronous computations *)

Inductive Outcome (A : Type) :=
| Ok (a : A)
| Throw (e : Error).
Arguments Ok {A} a.
Arguments Throw {A} e.

Definition M (A : Type) : Type := App → Outcome A * App.

Definition ret {A} (a : A) : M A := fun s => (Ok a, s).

Definition throw {A} (e : Error) : M A := fun s => (Throw e, s).

Definition bind {A B} (m : M A) (k : A → M B) : M B := fun s =>
  match m s with
  | (Ok a, s') => k a s'
  | (Throw e, s') => (Throw e, s')
  end.

Notation "'let*' x ':=' m 'in' k" := (bind m (fun x => k))
  (at level 10, x name, m at level 100, k at level 200).
Notation "m ';;' k" := (bind m (fun _ => k))
  (at level 100, k at level 200, right associativity).

(** [try { m } catch (e) { h e }]: what [m] wrote before it threw stays. *)
Definition try_catch {A} (m : M A) (h : Error → M A) : M A := fun s =>
  match m s with
  | (Ok a, s') => (Ok a, s')
  | (Throw e, s') => h e s'
  end.

(** [try { m } finally { f }]. *)
Definition finally {A} (m : M A) (f : M unit) : M A := fun s =>
  let '(r, s') := m s in
  match f s' with
  | (Ok _, s'') => (r, s'')
  | (Throw e, s'') => (Throw e, s'')
  end.

Definition gets {A} (f : App → A) : M A := fun s => (Ok (f s), s).

Definition modify (f : App → App) : M unit := fun s => (Ok tt, f s).

(** [Promise.all(l.map(f))]: every call is issued, in order; the result
    rejects with the first rejection. *)
Fixpoint promise_all {A B} (f : A → M B) (l : list A) : M (list B) := fun s =>
  match l with
  | [] => (Ok [], s)
  | x :: l' =>
      let '(r, s1) := f x s in
      let '(rs, s2) := promise_all f l' s1 in
      (match r, rs with
       | Ok b, Ok bs => Ok (b :: bs)
       | Throw e, _ => Throw e
       | Ok _, Throw e => Throw e
       end, s2)
  end.

(** ** Firestore calls *)

(** One round trip: logged, takes one tick, rejects when the schedule says so. *)
Definition round_trip (op : StoreOp) : M unit := fun s =>
  let w := world s in
  let s' := on_world (fun _ =>
              {| db := db w; clock := S (clock w); faults := tail (faults w);
                 log := log w ++ [op] |}) s in
  match faults w with
  | true :: _ => (Throw (StoreError op), s')
  | _ => (Ok tt, s')
  end.

(** [Timestamp.now()]. *)
Definition now : M Timestamp := gets (fun s => clock (world s)).

(** [addDoc(collection(db, 'transactions'), d)]. *)
Definition addDoc_transactions (d : TransactionDoc) : M unit :=
  round_trip (op_addDoc_transactions d) ;;
  modify (on_world (upd_db (upd_transactions (fun l => l ++ [d])))).

(** The fields [updateDoc(doc(db, 'users', u), {...})] writes: the balance
    and the date always, [accountStatus] only when the spread adds it. *)
Record UserPatch := mkUserPatch {
  patch_walletBalance : Qc;
  patch_lastTransactionDate : Timestamp;
  patch_accountStatus : option AccountStatus
}.

Definition apply_patch (p : UserPatch) (d : UserData) : UserData :=
  {| uid := uid d; name := name d; email := email d; role := role d;
     phone := phone d; registrationDate := registrationDate d;
     walletBalance := Some (patch_walletBalance p);
     accountStatus :=
       match patch_accountStatus p with
       | Some st => Some st
       | None => accountStatus d
       end;
     lastTransactionDate := Some (patch_lastTransactionDate p) |}.

(** [updateDoc] rejects when the document does not exist. *)
Definition updateDoc_users (u : string) (p : UserPatch) : M unit :=
  round_trip (op_updateDoc_users u) ;;
  let* us := gets (fun s => Db.users (db (world s))) in
  match us !! u with
  | Some d => modify (on_world (upd_db (upd_users (<[u := apply_patch p d]>))))
  | None => throw (NotFound (op_updateDoc_users u))
  end.

(** [updateDoc(doc(db, 'bookings', b), { status })]. *)
Definition updateDoc_bookings (b : string) (st : BookingStatus) : M unit :=
  round_trip (op_updateDoc_bookings b st) ;;
  let* bs := gets (fun s => Db.bookings (db (world s))) in
  match bs !! b with
  | Some d => modify (on_world (upd_db (upd_bookings (<[b := set_status st d]>))))
  | None => throw (NotFound (op_updateDoc_bookings b st))
  end.

(** [getDoc(doc(db, 'users', u))]: [None] when [!userDoc.exists()]. *)
Definition getDoc_users (u : string) : M (option UserData) :=
  round_trip (op_getDoc_users u) ;;
  gets (fun s => Db.users (db (world s)) !! u).

(** Newest first: insertion of [x] before the first element that is not
    newer than it. *)
Fixpoint insert_desc {A} (key : A → Timestamp) (x : A) (l : list A) : list A :=
  match l with
  | [] => [x]
  | y :: l' =>
      if (key x <? key y)%nat then y :: insert_desc key x l' else x :: y :: l'
  end.

Definition sort_desc {A} (key : A → Timestamp) (l : list A) : list A :=
  foldr (insert_desc key) [] l.

(** [query(collection(db, 'transactions'), where('userId', '==', u),
    orderBy('timestamp', 'desc'), limit(50))]. *)
Definition getDocs_transactions (u : string) : M (list WalletTransaction) :=
  round_trip (op_getDocs_transactions u) ;;
  let* txs := gets (fun s => Db.transactions (db (world s))) in
  ret (take 50 (sort_desc (fun t => timestamp (tx_doc t))
                 (filter (fun t => userId (tx_doc t) = u)
                    (imap mkWalletTransaction txs)))).

(** [query(collection(db, 'properties'), where('ownerId', '==', u))]. *)
Definition getDocs_properties (u : string) : M (list (string * PropertyDoc)) :=
  round_trip (op_getDocs_properties u) ;;
  let* ps := gets (fun s => Db.properties (db (world s))) in
  ret (filter (fun kv => p_ownerId kv.2 = u) (map_to_list ps)).

(** [query(collection(db, 'bookings'), where('ownerId', '==', u))]. *)
Definition getDocs_bookings (u : string) : M (list (string * BookingDoc)) :=
  round_trip (op_getDocs_bookings u) ;;
  let* bs := gets (fun s => Db.bookings (db (world s))) in
  ret (filter (fun kv => b_ownerId kv.2 = u) (map_to_list bs)).

(** [toast({...})]. *)
Definition toast (t : Toast) : M unit :=
  modify (fun s =>
    {| world := world s; auth := auth s; walletCtx := walletCtx s;
       bookingMgmt := bookingMgmt s; walletMgmt := walletMgmt s;
       toasts := toasts s ++ [t]; reloadRequested := reloadRequested s |}).

(** [window.location.reload()], possibly behind a [setTimeout]. *)
Definition reload : M unit :=
  modify (fun s =>
    {| world := world s; auth := auth s; walletCtx := walletCtx s;
       bookingMgmt := bookingMgmt s; walletMgmt := walletMgmt s;
       toasts := toasts s; reloadRequested := true |}).

(** ** AuthContext *)

(** [fetchUserData(uid)]: the only place where the cached [userData] is
    read back from the store.  It runs from [onAuthStateChanged], that is
    when the page loads and when the signed-in user changes. *)
Definition fetchUserData (u : string) : M unit :=
  let* userDoc := getDoc_users u in
  match userDoc with
  | Some d =>
      modify (on_auth (fun a =>
        {| currentUser := currentUser a; userData := Some d |}))
  | None => ret tt
  end.

(** ** WalletContext *)

(** [!currentUser || userData?.role !== 'owner']: the id of the signed-in
    landlord and the cached [userData], when there is one. *)
Definition landlord (a : Auth) : option (string * UserData) :=
  match currentUser a, userData a with
  | Some u, Some ud =>
      match role ud with
      | owner => Some (u, ud)
      | renter => None
      end
  | _, _ => None
  end.

Definition setLoading (b : bool) : M unit :=
  modify (on_walletCtx (fun c =>
    {| WalletCtx.transactions := WalletCtx.transactions c;
       WalletCtx.loading := b |})).

Definition setTransactions (l : list WalletTransaction) : M unit :=
  modify (on_walletCtx (fun c =>
    {| WalletCtx.transactions := l; WalletCtx.loading := WalletCtx.loading c |})).

Definition fetchTransactions : M unit :=
  let* a := gets auth in
  match landlord a with
  | None => ret tt
  | Some (u, _) =>
      setLoading true ;;
      finally
        (try_catch
           (let* transactionData := getDocs_transactions u in
            setTransactions transactionData)
           (fun _ => ret tt))
        (setLoading false)
  end.

Definition commissionRate : Qc := Q2Qc 0.025.

Definition deductCommission (bookingId propertyId : string)
    (rentalAmount : Qc) : M unit :=
  let* a := gets auth in
  match landlord a with
  | None => ret tt
  | Some (u, userData) =>
      let commissionAmount := (rentalAmount * commissionRate)%Qc in
      let currentBalance := or_zero (walletBalance userData) in
      let newBalance := (currentBalance - commissionAmount)%Qc in
      try_catch
        ((* Add transaction record *)
         let* t1 := now in
         addDoc_transactions
           {| userId := u;
              type := commission;
              amount := (- commissionAmount)%Qc;
              description :=
                [Str "عمولة حجز - "; Num (commissionRate * Q2Qc 100)%Qc;
                 Str "% من "; Num rentalAmount; Str " ريال"];
              bookingId := Some bookingId;
              propertyId := Some propertyId;
              timestamp := t1;
              balanceAfter := newBalance |} ;;
         (* Update user balance *)
         let* t2 := now in
         updateDoc_users u
           {| patch_walletBalance := newBalance;
              patch_lastTransactionDate := t2;
              (* Suspend account if balance drops below -100 *)
              patch_accountStatus :=
                if bool_decide (newBalance ≤ Q2Qc (-100))%Qc
                then Some suspended else None |} ;;
         (* Refresh transactions *)
         fetchTransactions)
        (fun error => throw error)
  end.

Definition rechargeWallet (amount : Qc) (description : Text) : M unit :=
  let* a := gets auth in
  match landlord a with
  | None => ret tt
  | Some (u, userData) =>
      let currentBalance := or_zero (walletBalance userData) in
      let newBalance := (currentBalance + amount)%Qc in
      try_catch
        ((* Add transaction record *)
         let* t1 := now in
         addDoc_transactions
           {| userId := u;
              type := recharge;
              amount := amount;
              description := description;
              bookingId := None;
              propertyId := None;
              timestamp := t1;
              balanceAfter := newBalance |} ;;
         (* Update user balance and reactivate account if needed *)
         let* t2 := now in
         updateDoc_users u
           {| patch_walletBalance := newBalance;
              patch_lastTransactionDate := t2;
              (* Reactivate account if balance is now positive *)
              patch_accountStatus :=
                if bool_decide (0 < newBalance)%Qc
                then Some active else None |} ;;
         (* Refresh transactions *)
         fetchTransactions)
        (fun error => throw error)
  end.

Definition checkAccountStatus : M bool :=
  let* a := gets auth in
  match landlord a with
  | None => ret true
  | Some (u, _) =>
      try_catch
        (let* userDoc := getDoc_users u in
         match userDoc with
         | Some data => ret (bool_decide (accountStatus data = Some active))
         | None => ret true
         end)
        (fun _ => ret true)
  end.

(** ** BookingManagement

    The component with the commission dialog.  Its source comes in two
    revisions whose [handleBookingAction] and [confirmBookingAcceptance]
    are the same statement for statement; [fetchBookings] is embedded from
    the revision that looks the linked property up among the owner's
    properties ([propertiesMap]). *)

Definition setBookings (l : list Booking) : M unit :=
  modify (on_bookingMgmt (fun c =>
    {| BookingMgmt.bookings := l;
       BookingMgmt.loading := BookingMgmt.loading c;
       BookingMgmt.showCommissionDialog := BookingMgmt.showCommissionDialog c;
       BookingMgmt.selectedBooking := BookingMgmt.selectedBooking c |})).

Definition setBookingsLoading (b : bool) : M unit :=
  modify (on_bookingMgmt (fun c =>
    {| BookingMgmt.bookings := BookingMgmt.bookings c;
       BookingMgmt.loading := b;
       BookingMgmt.showCommissionDialog := BookingMgmt.showCommissionDialog c;
       BookingMgmt.selectedBooking := BookingMgmt.selectedBooking c |})).

Definition setShowCommissionDialog (b : bool) : M unit :=
  modify (on_bookingMgmt (fun c =>
    {| BookingMgmt.bookings := BookingMgmt.bookings c;
       BookingMgmt.loading := BookingMgmt.loading c;
       BookingMgmt.showCommissionDialog := b;
       BookingMgmt.selectedBooking := BookingMgmt.selectedBooking c |})).

Definition setSelectedBooking (b : option Booking) : M unit :=
  modify (on_bookingMgmt (fun c =>
    {| BookingMgmt.bookings := BookingMgmt.bookings c;
       BookingMgmt.loading := BookingMgmt.loading c;
       BookingMgmt.showCommissionDialog := BookingMgmt.showCommissionDialog c;
       BookingMgmt.selectedBooking := b |})).

(** [propertyData?.pricePerMonth || 0], with [propertyData] the result of
    [propertiesMap.get(...)]. *)
Definition resolveRentalAmount (propertyData : option PropertyDoc) : Qc :=
  or_zero (propertyData ≫= p_pricePerMonth).

(** [propertyData?.title || 'عقار غير معروف'] (the empty string is falsy). *)
Definition resolveTitle (propertyData : option PropertyDoc) : string :=
  match propertyData ≫= p_title with
  | Some t => if bool_decide (t = "") then "عقار غير معروف" else t
  | None => "عقار غير معروف"
  end.

(** The callback mapped over [bookingsSnapshot.docs]. *)
Definition loadBooking (propertiesMap : gmap string PropertyDoc)
    (bookingDoc : string * BookingDoc) : M Booking :=
  let bookingData := bookingDoc.2 in
  let* renterDoc := getDoc_users (b_renterId bookingData) in
  let renterName :=
    match renterDoc with Some r => name r | None => "غير معروف" end in
  let propertyData := propertiesMap !! b_propertyId bookingData in
  let rentalAmount := resolveRentalAmount propertyData in
  ret {| id := bookingDoc.1;
         spread := bookingData;
         renterName := renterName;
         propertyTitle := resolveTitle propertyData;
         rentalAmount := Some rentalAmount |}.

Definition fetchBookings : M unit :=
  let* a := gets auth in
  match currentUser a with
  | None => ret tt
  | Some u =>
      finally
        (try_catch
           (let* propertiesSnapshot := getDocs_properties u in
            let propertiesMap : gmap string PropertyDoc :=
              list_to_map propertiesSnapshot in
            let* bookingsSnapshot := getDocs_bookings u in
            let* bookingsData :=
              promise_all (loadBooking propertiesMap) bookingsSnapshot in
            setBookings
              (sort_desc (fun b => b_timestamp (spread b)) bookingsData))
           (fun _ => ret tt))
        (setBookingsLoading false)
  end.

(** The tail of [handleBookingAction]: "For rejection or if no commission
    needed". [bookings] is the list the handler closed over. *)
Definition updateBookingStatus (bookings : list Booking) (bookingId : string)
    (action : BookingAction) : M unit :=
  try_catch
    (updateDoc_bookings bookingId (status_of_action action) ;;
     setBookings
       (map (fun booking =>
               if bool_decide (id booking = bookingId)
               then with_status (status_of_action action) booking
               else booking) bookings) ;;
     toast
       {| title :=
            match action with
            | action_accepted => "تم قبول الطلب"
            | action_rejected => "تم رفض الطلب"
            end;
          toast_description :=
            match action with
            | action_accepted => [Str "سيتم إشعار المستأجر بقبول طلبه"]
            | action_rejected => [Str "سيتم إشعار المستأجر برفض طلبه"]
            end;
          variant := default_variant |})
    (fun _ =>
       toast {| title := "خطأ";
                toast_description := [Str "حدث خطأ في معالجة الطلب"];
                variant := destructive |}).

Definition accountSuspendedToast : Toast :=
  {| title := "حساب معلق";
     toast_description :=
       [Str "لا يمكن قبول الحجوزات لأن حسابك معلق. يرجى شحن المحفظة أولاً."];
     variant := destructive |}.

Definition handleBookingAction (bookingId : string) (action : BookingAction)
    : M unit :=
  let* bookings := gets (fun s => BookingMgmt.bookings (bookingMgmt s)) in
  let* userData := gets (fun s => userData (auth s)) in
  let booking := List.find (fun b => bool_decide (id b = bookingId)) bookings in
  match action with
  | action_accepted =>
      (* Check account status before accepting bookings *)
      let* isAccountActive := checkAccountStatus in
      if negb isAccountActive
         || bool_decide (userData ≫= accountStatus = Some suspended)
      then toast accountSuspendedToast
      else
        match booking with
        | Some b =>
            if truthy (rentalAmount b)
            then setSelectedBooking (Some b) ;; setShowCommissionDialog true
            else updateBookingStatus bookings bookingId action
        | None => updateBookingStatus bookings bookingId action
        end
  | action_rejected => updateBookingStatus bookings bookingId action
  end.

Definition confirmBookingAcceptance : M unit :=
  let* bookings := gets (fun s => BookingMgmt.bookings (bookingMgmt s)) in
  let* selected := gets (fun s => BookingMgmt.selectedBooking (bookingMgmt s)) in
  match selected with
  | None => ret tt
  | Some selectedBooking =>
      try_catch
        ((* Deduct commission first *)
         (if truthy (rentalAmount selectedBooking)
          then deductCommission (id selectedBooking)
                 (b_propertyId (spread selectedBooking))
                 (or_zero (rentalAmount selectedBooking))
          else ret tt) ;;
         (* Update booking status *)
         updateDoc_bookings (id selectedBooking) accepted ;;
         setBookings
           (map (fun booking =>
                   if bool_decide (id booking = id selectedBooking)
                   then with_status accepted booking
                   else booking) bookings) ;;
         setShowCommissionDialog false ;;
         setSelectedBooking None ;;
         toast {| title := "تم قبول الطلب";
                  toast_description := [Str "تم خصم العمولة وقبول الحجز بنجاح"];
                  variant := default_variant |} ;;
         (* Refresh page to update wallet balance *)
         reload)
        (fun _ =>
           toast {| title := "خطأ";
                    toast_description := [Str "حدث خطأ في معالجة الطلب"];
                    variant := destructive |})
  end.

(** ** WalletManagement *)

Definition setRechargeAmount (x : option Qc) : M unit :=
  modify (on_walletMgmt (fun c =>
    {| WalletMgmt.rechargeAmount := x;
       WalletMgmt.rechargeLoading := WalletMgmt.rechargeLoading c;
       WalletMgmt.showRechargeDialog := WalletMgmt.showRechargeDialog c |})).

Definition setRechargeLoading (b : bool) : M unit :=
  modify (on_walletMgmt (fun c =>
    {| WalletMgmt.rechargeAmount := WalletMgmt.rechargeAmount c;
       WalletMgmt.rechargeLoading := b;
       WalletMgmt.showRechargeDialog := WalletMgmt.showRechargeDialog c |})).

Definition setShowRechargeDialog (b : bool) : M unit :=
  modify (on_walletMgmt (fun c =>
    {| WalletMgmt.rechargeAmount := WalletMgmt.rechargeAmount c;
       WalletMgmt.rechargeLoading := WalletMgmt.rechargeLoading c;
       WalletMgmt.showRechargeDialog := b |})).

Definition invalidAmountToast : Toast :=
  {| title := "خطأ";
     toast_description := [Str "يرجى إدخال مبلغ صحيح"];
     variant := destructive |}.

(** [!amount || amount <= 0] on [amount = parseFloat(rechargeAmount)]. *)
Definition invalidAmount (amount : option Qc) : bool :=
  negb (truthy amount) || bool_decide (or_zero amount ≤ 0)%Qc.

Definition handleRecharge : M unit :=
  let* amount := gets (fun s => WalletMgmt.rechargeAmount (walletMgmt s)) in
  if invalidAmount amount
  then toast invalidAmountToast
  else
    let amount := or_zero amount in
    setRechargeLoading true ;;
    finally
      (try_catch
         (rechargeWallet amount
            [Str "إعادة شحن المحفظة - "; Currency amount] ;;
          setRechargeAmount None ;;
          setShowRechargeDialog false ;;
          toast {| title := "تم بنجاح";
                   toast_description :=
                     [Str "تم شحن المحفظة بمبلغ "; Currency amount];
                   variant := default_variant |} ;;
          (* Refresh page to update balance *)
          reload)
         (fun _ =>
            toast {| title := "خطأ";
                     toast_description := [Str "حدث خطأ في عملية الشحن"];
                     variant := destructive |}))
      (setRechargeLoading false).


(** ** Vocabulary of the statements *)

(** The account record of [u] in the store, the transaction log and the
    record of a booking. *)
Definition account (s : App) (u : string) : option UserData :=
  Db.users (db (world s)) !! u.

Definition ledger (s : App) : list TransactionDoc :=
  Db.transactions (db (world s)).

Definition booking_record (s : App) (b : string) : option BookingDoc :=
  Db.bookings (db (world s)) !! b.

(** What lies outside the backend and the wallet context is the same in
    [s] and [s']. *)
Definition ui_frame (s s' : App) : Prop :=
  auth s' = auth s ∧ bookingMgmt s' = bookingMgmt s ∧
  walletMgmt s' = walletMgmt s ∧ toasts s' = toasts s ∧
  reloadRequested s' = reloadRequested s.

(** The common shape of the [try] blocks of [deductCommission] and
    [rechargeWallet]: append the transaction, update the account, refresh
    the list; rethrow. *)
Definition ledger_write (u : string) (mk_tx : Timestamp → TransactionDoc)
    (mk_patch : Timestamp → UserPatch) : M unit :=
  try_catch
    (let* t1 := now in
     addDoc_transactions (mk_tx t1) ;;
     let* t2 := now in
     updateDoc_users u (mk_patch t2) ;;
     fetchTransactions)
    (fun error => throw error).

Definition is_ledger_followup (u : string) (op : StoreOp) : Prop :=
  op = op_updateDoc_users u ∨ ∃ v, op = op_getDocs_transactions v.

Definition is_booking_write (op : StoreOp) : Prop :=
  ∃ b st, op = op_updateDoc_bookings b st.

(** Only the traffic with the backend (clock, fault schedule, log) differs
    between [s] and [s']. *)
Definition same_but_traffic (s s' : App) : Prop :=
  db (world s') = db (world s) ∧ ui_frame s s' ∧ walletCtx s' = walletCtx s.

(** A listed booking [bk] was built by [loadBooking] from the records of
    [d]: its fields are those of the stored booking, and its rental amount
    is resolved from the linked property as found among the owner's
    properties, if at all. *)
Definition loaded_from (d : Db.t) (bk : Booking) : Prop :=
  ∃ propertyData : option PropertyDoc,
    Db.bookings d !! id bk = Some (spread bk) ∧
    rentalAmount bk = Some (resolveRentalAmount propertyData) ∧
    ∀ p, propertyData = Some p →
         Db.properties d !! b_propertyId (spread bk) = Some p.

(** One acceptance to charge: [(bookingId, propertyId, rentalAmount)]. *)
Definition Charge : Type := string * string * Qc.


(** The same calls, each followed by the re-read of [userData] that a page
    load performs for the signed-in user [u]. *)
Fixpoint deductAllReloading (u : string) (cs : list Charge) : M unit :=
  match cs with
  | [] => ret tt
  | (b, p, r) :: cs' =>
      deductCommission b p r ;; fetchUserData u ;; deductAllReloading u cs'
  end.


(** ** The claims as the specification words them, where the code differs *)


(** [rechargeWallet] rejects an amount [≤ 0] before any write. *)
Definition rechargeWallet_rejects_nonpositive : Prop :=
  ∀ (s : App) (u : string) (ud : UserData) (amount : Qc) (d : Text),
    landlord (auth s) = Some (u, ud) →
    (amount ≤ 0)%Qc →
    ∃ e, (rechargeWallet amount d s).1 = Throw e ∧
         db (world (rechargeWallet amount d s).2) = db (world s).

(** For a landlord whose record exists, [checkAccountStatus] answers [true]
    exactly when the stored status is [active]. *)
Definition checkAccountStatus_iff_stored_active : Prop :=
  ∀ (s : App) (u : string) (ud doc : UserData),
    landlord (auth s) = Some (u, ud) →
    account s u = Some doc →
    ((checkAccountStatus s).1 = Ok true ↔ accountStatus doc = Some active).

(** The transaction [deductCommission] appends for a landlord [u] whose
    cached [userData] is [cached], and the one [rechargeWallet] appends. *)
Definition commissionTx (u bookingId propertyId : string) (rentalAmount : Qc)
    (cached : UserData) (t : Timestamp) : TransactionDoc :=
  {| userId := u; type := commission;
     amount := (- (rentalAmount * commissionRate))%Qc;
     description :=
       [Str "عمولة حجز - "; Num (commissionRate * Q2Qc 100)%Qc;
        Str "% من "; Num rentalAmount; Str " ريال"];
     bookingId := Some bookingId; propertyId := Some propertyId;
     timestamp := t;
     balanceAfter :=
       (or_zero (walletBalance cached) - rentalAmount * commissionRate)%Qc |}.

Definition rechargeTx (u : string) (amount : Qc) (description : Text)
    (cached : UserData) (t : Timestamp) : TransactionDoc :=
  {| userId := u; type := recharge; amount := amount;
     description := description; bookingId := None; propertyId := None;
     timestamp := t;
     balanceAfter := (or_zero (walletBalance cached) + amount)%Qc |}.

(** ** A small deployment, for the examples *)

Module Demo.

Definition landlord_doc (b : Q) (st : AccountStatus) : UserData :=
  {| uid := "L1"; name := "Layla"; email := "layla@example.org";
     role := owner; phone := None; registrationDate := 0;
     walletBalance := Some (Q2Qc b); accountStatus := Some st;
     lastTransactionDate := Some 0 |}.

Definition renter_doc : UserData :=
  {| uid := "R1"; name := "Rami"; email := "rami@example.org";
     role := renter; phone := None; registrationDate := 0;
     walletBalance := None; accountStatus := None;
     lastTransactionDate := None |}.

Definition booking_doc (p : string) (t : Timestamp) : BookingDoc :=
  {| b_renterId := "R1"; b_ownerId := "L1"; b_propertyId := p;
     b_startDate := 10; b_endDate := 40; b_message := "";
     b_status := pending; b_timestamp := t |}.

(** Booking [B1] is for property [P1] (4000 a month); booking [B2] is for
    [P2], which has been deleted; booking [B3] is for [P3], which has no
    recorded price; booking [B4] is for [P4] (120000 a month). *)
Definition demo_db (b : Q) (st : AccountStatus) : Db.t :=
  {| Db.users := {[ "L1" := landlord_doc b st; "R1" := renter_doc ]};
     Db.transactions := [];
     Db.bookings := {[ "B1" := booking_doc "P1" 1; "B2" := booking_doc "P2" 2;
                       "B3" := booking_doc "P3" 3; "B4" := booking_doc "P4" 4 ]};
     Db.properties :=
       {[ "P1" := {| p_ownerId := "L1"; p_title := Some "Flat";
                     p_pricePerMonth := Some (Q2Qc 4000) |};
          "P3" := {| p_ownerId := "L1"; p_title := Some "Shop";
                     p_pricePerMonth := None |};
          "P4" := {| p_ownerId := "L1"; p_title := Some "Villa";
                     p_pricePerMonth := Some (Q2Qc 120000) |} ]} |}.

(** Two acceptances: commissions of 100 and of 3000. *)
Definition two_charges : list Charge :=
  [("B1", "P1", Q2Qc 4000); ("B4", "P4", Q2Qc 120000)].

(** The application just after the page has loaded for user [u], whose
    cached [userData] is [ud], with the store holding balance [b] and
    status [st] for the landlord, and [fs] the faults to come. *)
Definition app (u : option string) (ud : option UserData) (b : Q)
    (st : AccountStatus) (fs : list bool) : App :=
  {| world := {| db := demo_db b st; clock := 100; faults := fs; log := [] |};
     auth := {| currentUser := u; userData := ud |};
     walletCtx := {| WalletCtx.transactions := []; WalletCtx.loading := false |};
     bookingMgmt :=
       {| BookingMgmt.bookings := []; BookingMgmt.loading := true;
          BookingMgmt.showCommissionDialog := false;
          BookingMgmt.selectedBooking := None |};
     walletMgmt :=
       {| WalletMgmt.rechargeAmount := None;
          WalletMgmt.rechargeLoading := false;
          WalletMgmt.showRechargeDialog := false |};
     toasts := [];
     reloadRequested := false |}.

(** The landlord signed in, cache in step with the store. *)
Definition landlord_app (b : Q) (st : AccountStatus) (fs : list bool) : App :=
  app (Some "L1") (Some (landlord_doc b st)) b st fs.

(** The same application with an amount typed into the recharge dialog. *)
Definition with_rechargeAmount (x : option Qc) (s : App) : App :=
  on_walletMgmt (fun c =>
    {| WalletMgmt.rechargeAmount := x;
       WalletMgmt.rechargeLoading := WalletMgmt.rechargeLoading c;
       WalletMgmt.showRechargeDialog := WalletMgmt.showRechargeDialog c |}) s.

(** The balance (as a fraction) and the status stored for the demo landlord. *)
Definition stored (s : App) : option Q * option AccountStatus :=
  (this <$> (account s "L1" ≫= walletBalance),
   account s "L1" ≫= accountStatus).

End Demo.

(** ** Vocabulary of the further properties *)

(** Newest first by [key]: every element is at least as recent as all
    those after it. *)
Definition newest_first {A} (key : A → Timestamp) (l : list A) : Prop :=
  StronglySorted (λ a b, key b ≤ key a) l.

(** The transactions of [u] in the store, each with its document id. *)
Definition own_transactions (s : App) (u : string) : list WalletTransaction :=
  filter (fun t => userId (tx_doc t) = u) (imap mkWalletTransaction (ledger s)).

(** The [n]-th round trip to come is not scheduled to reject. *)
Definition goes_through (s : App) (n : nat) : Prop :=
  faults (world s) !! n ≠ Some true.

(** No round trip to come is scheduled to reject. *)
Definition fault_free (s : App) : Prop :=
  Forall (λ f, f = false) (faults (world s)).

(** Whatever its outcome, [m] takes a state to one related to it by [R]. *)
Definition preserves {A} (R : App → App → Prop) (m : M A) : Prop :=
  ∀ s r s', m s = (r, s') → R s s'.

(** [R] holds between the databases of two states. *)
Definition on_db (R : Db.t → Db.t → Prop) : App → App → Prop :=
  fun s s' => R (db (world s)) (db (world s')).

(** [m] always resolves. *)
Definition never_rejects {A} (m : M A) : Prop :=
  ∀ s, ∃ a s', m s = (Ok a, s').

(** From [d] to [d'] the transactions already there are kept, in place;
    no property is written; no user or booking record is created or
    deleted; a user keeps its role. *)
Definition db_frame (d d' : Db.t) : Prop :=
  Db.transactions d `prefix_of` Db.transactions d' ∧
  Db.properties d' = Db.properties d ∧
  (∀ u, (role <$> Db.users d' !! u) = (role <$> Db.users d !! u)) ∧
  (∀ b, is_Some (Db.bookings d' !! b) ↔ is_Some (Db.bookings d !! b)).

(** The booking selected for confirmation, if any, has a rental amount. *)
Definition selection_has_rent (s : App) : Prop :=
  ∀ b, BookingMgmt.selectedBooking (bookingMgmt s) = Some b →
       truthy (rentalAmount b) = true.

(** Every listed booking is as [loadBooking] builds it from the stored
    records; in particular its status is the stored one. *)
Definition list_in_step (s : App) : Prop :=
  Forall (loaded_from (db (world s))) (BookingMgmt.bookings (bookingMgmt s)).

(** The two reasons for which the accept guard refuses: the landlord's
    record was read and its status is not ['active']; the cached
    [userData] says ['suspended']. *)
Definition stored_status_bars (s : App) : Prop :=
  ∃ u ud doc, landlord (auth s) = Some (u, ud) ∧ goes_through s 0 ∧
              account s u = Some doc ∧ accountStatus doc ≠ Some active.

Definition cached_status_bars (s : App) : Prop :=
  userData (auth s) ≫= accountStatus = Some suspended.

(** What the wallet operations leave alone: the bookings, the properties
    and everything outside the backend and the wallet context. *)
Definition beside_wallet (s s' : App) : Prop :=
  Db.bookings (db (world s')) = Db.bookings (db (world s)) ∧
  Db.properties (db (world s')) = Db.properties (db (world s)) ∧
  ui_frame s s'.

(** The local list after [handleBookingAction] or
    [confirmBookingAcceptance] has written status [st] for [bookingId]. *)
Definition mark (bookingId : string) (st : BookingStatus)
    (bookings : list Booking) : list Booking :=
  map (fun booking =>
         if bool_decide (id booking = bookingId)
         then with_status st booking else booking) bookings.

(** The first listed booking with id [bookingId]:
    [bookings.find(b => b.id === bookingId)]. *)
Definition listed (s : App) (bookingId : string) : option Booking :=
  List.find (fun b => bool_decide (id b = bookingId))
    (BookingMgmt.bookings (bookingMgmt s)).

(** The booking selected for confirmation is the same in [s] and [s']. *)
Definition same_selection (s s' : App) : Prop :=
  BookingMgmt.selectedBooking (bookingMgmt s') =
  BookingMgmt.selectedBooking (bookingMgmt s).

(** The first step of [confirmBookingAcceptance] for the selected booking
    [sb]: "Deduct commission first". *)
Definition chargeSelected (sb : Booking) : M unit :=
  if truthy (rentalAmount sb)
  then deductCommission (id sb) (b_propertyId (spread sb))
         (or_zero (rentalAmount sb))
  else ret tt.

(** [m] keeps the invariant [P], whatever its outcome. *)
Definition keeps {A} (P : App → Prop) (m : M A) : Prop :=
  ∀ s r s', P s → m s = (r, s') → P s'.

(** A call on the wallet: [deductCommission] or [rechargeWallet]. *)
Inductive WalletCall :=
| call_deduct (bookingId propertyId : string) (rentalAmount : Qc)
| call_recharge (amount : Qc) (description : Text).

Definition runWalletCall (c : WalletCall) : M unit :=
  match c with
  | call_deduct b p r => deductCommission b p r
  | call_recharge a d => rechargeWallet a d
  end.

(** The calls in turn, each followed by the re-read of [userData] that a
    page load performs for the signed-in user [u]. *)
Fixpoint runReloading (u : string) (cs : list WalletCall) : M unit :=
  match cs with
  | [] => ret tt
  | c :: cs' => runWalletCall c ;; fetchUserData u ;; runReloading u cs'
  end.

(** The amount a call moves: [−(rentalAmount × 0.025)] or [+amount]. *)
Definition signedAmount (c : WalletCall) : Qc :=
  match c with
  | call_deduct _ _ r => (- (r * commissionRate))%Qc
  | call_recharge a _ => a
  end.

(** The size of a call: the rental amount, or the amount recharged. *)
Definition callSize (c : WalletCall) : Qc :=
  match c with
  | call_deduct _ _ r => r
  | call_recharge a _ => a
  end.


(** The band the status keeps to: an active account is above −100, a
    suspended one is not above 0. *)
Definition within_band (doc : UserData) : Prop :=
  (accountStatus doc = Some active →
   (Q2Qc (-100) < or_zero (walletBalance doc))%Qc) ∧
  (accountStatus doc = Some suspended →
   (or_zero (walletBalance doc) ≤ 0)%Qc).

(** ** States for the examples of the further properties *)

Module Cases.

(** The landlord after the two acceptances of [Demo.two_charges], each
    followed by a reload: two transactions in the ledger. *)
Definition after_two_charges : App :=
  (deductAllReloading "L1" Demo.two_charges (Demo.landlord_app 0 active [])).2.

(** The store says active with 5000, the cache still says suspended. *)
Definition stale_suspended : App :=
  Demo.app (Some "L1") (Some (Demo.landlord_doc 0 suspended)) 5000 active [].

(** The booking screen after a fault-free load. *)
Definition loaded : App := (fetchBookings (Demo.landlord_app 0 active [])).2.

(** Booking [B1] selected in the dialog, with [n] round trips to go before
    one is rejected. *)
Definition selected_B1 (n : nat) : App :=
  ((fetchBookings ;; handleBookingAction "B1" action_accepted)
     (Demo.landlord_app 0 active (replicate (7 + n) false ++ [true]))).2.

(** A deduction on a rent of 4000, then a recharge of 500. *)
Definition two_calls : list WalletCall :=
  [call_deduct "B1" "P1" (Q2Qc 4000); call_recharge (Q2Qc 500) []].

End Cases.

(** * Proofs *)

Ltac unfold_m :=
  unfold bind, ret, throw, try_catch, finally, gets, modify, round_trip, now,
    getDoc_users, getDocs_transactions, addDoc_transactions, updateDoc_users,
    updateDoc_bookings, setLoading, setTransactions, toast, reload in *.

(** ** The wallet context *)

Lemma landlord_Some a u ud :
  landlord a = Some (u, ud) ↔
  currentUser a = Some u ∧ userData a = Some ud ∧ role ud = owner.
Proof.
  unfold landlord.
  destruct (currentUser a) as [v|], (userData a) as [d|];
    try (split; [discriminate | intros (? & ? & ?); discriminate]).
  destruct (role d) eqn:Hr.
  - split; [intros [= <- <-]; done | intros ([= <-] & [= <-] & _); done].
  - split; [discriminate | intros (_ & [= <-] & ?); congruence].
Qed.

Lemma landlord_None a :
  landlord a = None ↔
  currentUser a = None ∨ ∀ ud, userData a = Some ud → role ud ≠ owner.
Proof.
  unfold landlord.
  destruct (currentUser a) as [v|], (userData a) as [d|];
    try (split; [intros _ | done]; (by left) || (right; intros; discriminate)).
  destruct (role d) eqn:Hr.
  - split; [discriminate | intros [? | H]; [discriminate | by destruct (H d)]].
  - split; [intros _; right; intros ? [= <-]; congruence | done].
Qed.

(** [fetchTransactions] never rejects and only reads. *)
Lemma fetchTransactions_spec s :
  ∃ s', fetchTransactions s = (Ok tt, s') ∧ ui_frame s s' ∧
    db (world s') = db (world s) ∧
    ∃ ops, log (world s') = log (world s) ++ ops ∧
      Forall (λ op, ∃ u, op = op_getDocs_transactions u) ops.
Proof.
  unfold fetchTransactions. unfold_m.
  destruct (landlord (auth s)) as [[u ud]|] eqn:Hl; cbn.
  - destruct s as [[d c fs lg] a wc bm wm ts rl]; cbn in *.
    destruct fs as [|[] fs]; cbn; eexists; (split; [reflexivity|]); cbn;
      (split; [by repeat split|]); (split; [done|]);
      exists [op_getDocs_transactions u]; split; try done;
      repeat constructor; eauto.
  - exists s. split; [done|]. split; [by repeat split|]. split; [done|].
    exists []. rewrite app_nil_r. split; [done|]. constructor.
Qed.

Local Arguments fetchTransactions : simpl never.

(** What a ledger write leaves behind, whether it resolves or rejects. *)
Lemma ledger_write_spec u mk_tx mk_patch s r s' :
  ledger_write u mk_tx mk_patch s = (r, s') →
  let tx := mk_tx (clock (world s)) in
  let p := mk_patch (S (clock (world s))) in
  ui_frame s s' ∧
  Db.bookings (db (world s')) = Db.bookings (db (world s)) ∧
  Db.properties (db (world s')) = Db.properties (db (world s)) ∧
  match r with
  | Ok _ =>
      ∃ doc, account s u = Some doc ∧
        Db.users (db (world s')) =
          <[u := apply_patch p doc]> (Db.users (db (world s))) ∧
        ledger s' = ledger s ++ [tx]
  | Throw _ =>
      Db.users (db (world s')) = Db.users (db (world s)) ∧
      (ledger s' = ledger s ∨ ledger s' = ledger s ++ [tx])
  end ∧
  ∃ ops, log (world s') = log (world s) ++ op_addDoc_transactions tx :: ops ∧
         Forall (is_ledger_followup u) ops.
Proof.
  unfold ledger_write, account, ledger. unfold_m.
  destruct s as [[[us txs bs ps] c fs lg] a wc bm wm ts rl]; cbn.
  assert (Hft : ∀ x, ∃ s2, fetchTransactions x = (Ok tt, s2) ∧ ui_frame x s2 ∧
            db (world s2) = db (world x) ∧
            ∃ ops, log (world s2) = log (world x) ++ ops ∧
                   Forall (is_ledger_followup u) ops).
  { intros x.
    destruct (fetchTransactions_spec x) as (s2 & ? & ? & ? & ops & ? & Hops).
    exists s2. repeat (split; [done|]). exists ops. split; [done|].
    eapply Forall_impl; [|exact Hops]. intros op [v ->]. right. eauto. }
  destruct fs as [|[] [|[] fs]]; cbn;
    try (intros [= <- <-]; cbn; unfold ui_frame; cbn;
         repeat (split; [done|]); try (split; [by auto|]);
         eexists; (split; [reflexivity|]); by repeat constructor).
  all: destruct (us !! u) as [doc|] eqn:Hu; cbn.
  all: try (intros [= <- <-]; cbn; unfold ui_frame; cbn;
         repeat (split; [done|]); try (split; [by auto|]);
         exists [op_updateDoc_users u]; rewrite <- app_assoc;
         (split; [reflexivity|]); repeat constructor).
  all: match goal with |- context [fetchTransactions ?x] =>
         destruct (Hft x) as (s2 & -> & Hf & Hdb & ops & Hlog & Hops) end;
       intros [= <- <-]; unfold ui_frame in *; cbn in *;
       destruct Hf as (?&?&?&?&?); rewrite Hdb, Hlog; cbn;
       (split; [done|]); repeat (split; [done|]);
       (split; [by exists doc|]);
       exists (op_updateDoc_users u :: ops); rewrite <- !app_assoc;
       (split; [reflexivity|]); constructor; [by left|done].
Qed.

Lemma deductCommission_landlord bid pid r s u ud :
  landlord (auth s) = Some (u, ud) →
  deductCommission bid pid r s =
  ledger_write u (commissionTx u bid pid r ud)
    (fun t =>
       let newBalance := (or_zero (walletBalance ud) - r * commissionRate)%Qc in
       {| patch_walletBalance := newBalance;
          patch_lastTransactionDate := t;
          patch_accountStatus :=
            if bool_decide (newBalance ≤ Q2Qc (-100))%Qc
            then Some suspended else None |}) s.
Proof. intros H. unfold deductCommission, bind, gets. by rewrite H. Qed.

Lemma rechargeWallet_landlord amount d s u ud :
  landlord (auth s) = Some (u, ud) →
  rechargeWallet amount d s =
  ledger_write u (rechargeTx u amount d ud)
    (fun t =>
       let newBalance := (or_zero (walletBalance ud) + amount)%Qc in
       {| patch_walletBalance := newBalance;
          patch_lastTransactionDate := t;
          patch_accountStatus :=
            if bool_decide (0 < newBalance)%Qc then Some active else None |}) s.
Proof. intros H. unfold rechargeWallet, bind, gets. by rewrite H. Qed.

Lemma account_after_insert s s' u d :
  Db.users (db (world s')) = <[u := d]> (Db.users (db (world s))) →
  account s' u = Some d.
Proof. unfold account. intros ->. apply lookup_insert_eq. Qed.

(** A successful [deductCommission] by a landlord: the record it leaves
    and the transaction it appends. *)
Lemma deductCommission_Ok bid pid r s s' u ud :
  landlord (auth s) = Some (u, ud) →
  deductCommission bid pid r s = (Ok tt, s') →
  let newBalance := (or_zero (walletBalance ud) - r * commissionRate)%Qc in
  ∃ doc,
    account s u = Some doc ∧
    Db.users (db (world s')) =
      <[u := apply_patch
               {| patch_walletBalance := newBalance;
                  patch_lastTransactionDate := S (clock (world s));
                  patch_accountStatus :=
                    if bool_decide (newBalance ≤ Q2Qc (-100))%Qc
                    then Some suspended else None |} doc]>
        (Db.users (db (world s))) ∧
    ledger s' = ledger s ++ [commissionTx u bid pid r ud (clock (world s))] ∧
    auth s' = auth s.
Proof.
  intros Hl Hrun. rewrite (deductCommission_landlord _ _ _ _ _ _ Hl) in Hrun.
  apply ledger_write_spec in Hrun as ((Ha & _) & _ & _ & (doc & ? & ? & ?) & _).
  by exists doc.
Qed.

Lemma rechargeWallet_Ok amount d s s' u ud :
  landlord (auth s) = Some (u, ud) →
  rechargeWallet amount d s = (Ok tt, s') →
  let newBalance := (or_zero (walletBalance ud) + amount)%Qc in
  ∃ doc,
    account s u = Some doc ∧
    Db.users (db (world s')) =
      <[u := apply_patch
               {| patch_walletBalance := newBalance;
                  patch_lastTransactionDate := S (clock (world s));
                  patch_accountStatus :=
                    if bool_decide (0 < newBalance)%Qc
                    then Some active else None |} doc]>
        (Db.users (db (world s))) ∧
    ledger s' = ledger s ++ [rechargeTx u amount d ud (clock (world s))] ∧
    auth s' = auth s.
Proof.
  intros Hl Hrun. rewrite (rechargeWallet_landlord _ _ _ _ _ Hl) in Hrun.
  apply ledger_write_spec in Hrun as ((Ha & _) & _ & _ & (doc & ? & ? & ?) & _).
  by exists doc.
Qed.


(** C3. A successful [rechargeWallet] by a landlord sets [accountStatus] to
    [active] exactly when [newBalance = currentBalance + amount] is strictly
    positive, and leaves it as it was otherwise. *)
Theorem rechargeWallet_reactivation_threshold amount d s s' u ud :
  landlord (auth s) = Some (u, ud) →
  rechargeWallet amount d s = (Ok tt, s') →
  let currentBalance := or_zero (walletBalance ud) in
  let newBalance := (currentBalance + amount)%Qc in
  ∃ before after,
    account s u = Some before ∧ account s' u = Some after ∧
    walletBalance after = Some newBalance ∧
    ((0 < newBalance)%Qc → accountStatus after = Some active) ∧
    (¬ (0 < newBalance)%Qc → accountStatus after = accountStatus before).
Proof.
  intros Hl Hrun.
  destruct (rechargeWallet_Ok _ _ _ _ _ _ Hl Hrun) as (doc & Hdoc & Hus & _).
  eexists doc, _. split; [done|]. split; [by eapply account_after_insert|].
  cbn. split; [done|]. case_bool_decide; naive_solver.
Qed.

(** C10. Called with nobody signed in, or by a user whose role is not
    ['owner'], [deductCommission] and [rechargeWallet] resolve without
    doing anything: the whole state, store included, is as before. *)
Theorem wallet_operations_ignore_non_landlords s :
  (currentUser (auth s) = None ∨
   ∀ ud, userData (auth s) = Some ud → role ud ≠ owner) →
  (∀ bid pid r, deductCommission bid pid r s = (Ok tt, s)) ∧
  (∀ amount d, rechargeWallet amount d s = (Ok tt, s)).
Proof.
  intros H%landlord_None.
  split; intros; unfold deductCommission, rechargeWallet, bind, gets;
    by rewrite H.
Qed.

(** ** Sequences of deductions *)

Lemma fetchUserData_Ok u s s' :
  fetchUserData u s = (Ok tt, s') →
  db (world s') = db (world s) ∧
  currentUser (auth s') = currentUser (auth s) ∧
  userData (auth s') =
    match account s u with Some d => Some d | None => userData (auth s) end.
Proof.
  unfold fetchUserData, account. unfold_m.
  destruct s as [[d c fs lg] a wc bm wm ts rl]; cbn.
  destruct fs as [|[] fs]; cbn; try discriminate;
    destruct (Db.users d !! u); cbn; by intros [= <-].
Qed.

Lemma bind_Ok {A B} (m : M A) (k : A → M B) s b s' :
  bind m k s = (Ok b, s') → ∃ a s1, m s = (Ok a, s1) ∧ k a s1 = (Ok b, s').
Proof.
  unfold bind. destruct (m s) as [[a|e] s1]; [eauto | discriminate].
Qed.









Lemma rechargeWallet_reactivation_threshold_witness :
  let s := Demo.landlord_app (-100) suspended [] in
  let s' := (rechargeWallet (Q2Qc 100) [] s).2 in
  ∃ before after,
    account s "L1" = Some before ∧ account s' "L1" = Some after ∧
    walletBalance after = Some (Q2Qc (-100) + Q2Qc 100)%Qc ∧
    accountStatus before = Some suspended ∧
    accountStatus after = Some suspended.
Proof.
  intros s s'.
  destruct (rechargeWallet_reactivation_threshold (Q2Qc 100) [] s s' "L1"
              (Demo.landlord_doc (-100) suspended) eq_refl
              ltac:(vm_compute; reflexivity))
    as (before & after & Hb & Ha & Hbal & _ & Hkeep).
  exists before, after. repeat split; try assumption.
  - injection Hb as <-. reflexivity.
  - rewrite Hkeep.
    + injection Hb as <-. reflexivity.
    + vm_compute. intros H. discriminate.
Defined.

Lemma wallet_operations_ignore_non_landlords_witness :
  let s := Demo.app (Some "R1") (Some Demo.renter_doc) 0 active [] in
  deductCommission "B1" "P1" (Q2Qc 4000) s = (Ok tt, s) ∧
  rechargeWallet (Q2Qc 500) [] s = (Ok tt, s).
Proof.
  intros s.
  assert (H : currentUser (auth s) = None ∨
              ∀ ud, userData (auth s) = Some ud → role ud ≠ owner).
  { right. intros ud [= <-]. discriminate. }
  split.
  - exact (proj1 (wallet_operations_ignore_non_landlords s H) _ _ _).
  - exact (proj2 (wallet_operations_ignore_non_landlords s H) _ _).
Defined.

(** ** The account-status guard *)

(** [checkAccountStatus] never rejects and only reads; for a landlord it
    makes exactly one read of the account record, and answers [true] when
    that read rejects. *)
Lemma checkAccountStatus_spec s :
  ∃ b s', checkAccountStatus s = (Ok b, s') ∧
    db (world s') = db (world s) ∧ ui_frame s s' ∧
    walletCtx s' = walletCtx s ∧
    match landlord (auth s) with
    | None => b = true ∧ s' = s
    | Some (u, _) =>
        log (world s') = log (world s) ++ [op_getDoc_users u] ∧
        faults (world s') = tail (faults (world s)) ∧
        b = match faults (world s) with
            | true :: _ => true
            | _ => match account s u with
                   | Some data => bool_decide (accountStatus data = Some active)
                   | None => true
                   end
            end
    end.
Proof.
  unfold checkAccountStatus, account. unfold_m.
  destruct (landlord (auth s)) as [[u ud]|] eqn:Hl; cbn.
  - destruct s as [[d c fs lg] a wc bm wm ts rl]; cbn in *.
    destruct fs as [|[] fs]; cbn; try destruct (Db.users d !! u); cbn;
      eexists _, _; (split; [reflexivity|]); unfold ui_frame; cbn; done.
  - by exists true, s.
Qed.

(** C9, as amended.  [checkAccountStatus] reads the account record of the
    signed-in landlord from the store, whatever the cached [userData]
    holds; when the record exists and the read succeeds it answers [true]
    exactly when the stored [accountStatus] is ['active']; when the read
    rejects it answers [true]; callers who are not landlords get [true]
    and nothing is read. *)
Theorem checkAccountStatus_reads_the_store s :
  (∀ u ud doc,
     landlord (auth s) = Some (u, ud) →
     account s u = Some doc →
     head (faults (world s)) ≠ Some true →
     ((checkAccountStatus s).1 = Ok true ↔ accountStatus doc = Some active) ∧
     log (world (checkAccountStatus s).2) =
       log (world s) ++ [op_getDoc_users u]) ∧
  (∀ u ud,
     landlord (auth s) = Some (u, ud) →
     head (faults (world s)) = Some true →
     (checkAccountStatus s).1 = Ok true) ∧
  (landlord (auth s) = None → checkAccountStatus s = (Ok true, s)).
Proof.
  destruct (checkAccountStatus_spec s) as (b & s' & Hrun & _ & _ & _ & Hcase).
  rewrite Hrun. cbn. split; [|split].
  - intros u ud doc Hl Hdoc Hok. rewrite Hl in Hcase.
    destruct Hcase as (Hlog & _ & ->). split; [|done]. rewrite Hdoc.
    destruct (faults (world s)) as [|[] fs]; cbn in Hok; [|done|];
      (split; [intros [= H]; by apply bool_decide_eq_true in H
              | intros H; f_equal; by apply bool_decide_eq_true]).
  - intros u ud Hl Hfault. rewrite Hl in Hcase.
    destruct Hcase as (_ & _ & ->).
    destruct (faults (world s)) as [|[] fs]; by cbn in Hfault.
  - intros Hl. rewrite Hl in Hcase. by destruct Hcase as [-> ->].
Qed.

Lemma checkAccountStatus_reads_the_store_witness :
  let s := Demo.app (Some "L1") (Some (Demo.landlord_doc 0 active))
             (-3100) suspended [] in
  (checkAccountStatus s).1 ≠ Ok true.
Proof.
  intros s H.
  pose proof (proj1 (checkAccountStatus_reads_the_store s) "L1"
                (Demo.landlord_doc 0 active)
                (Demo.landlord_doc (-3100) suspended)
                eq_refl ltac:(vm_compute; reflexivity)
                ltac:(vm_compute; discriminate)) as [Hiff _].
  apply Hiff in H. discriminate H.
Defined.

(** C9, as the specification words it, fails: the landlord's stored status
    is [suspended], the read of the record rejects, and the answer is
    [true]. *)
Lemma checkAccountStatus_fails_open :
  ¬ checkAccountStatus_iff_stored_active.
Proof.
  intros claim.
  pose (s := Demo.landlord_app (-3100) suspended [true]).
  specialize (claim s "L1" (Demo.landlord_doc (-3100) suspended)
                (Demo.landlord_doc (-3100) suspended)
                eq_refl ltac:(vm_compute; reflexivity)).
  assert (H : (checkAccountStatus s).1 = Ok true) by (vm_compute; reflexivity).
  apply claim in H. discriminate H.
Qed.

(** ** Accepting and rejecting *)

(** C5. When [checkAccountStatus] answers [false] on an accept attempt,
    [handleBookingAction] shows the "account suspended" toast and returns:
    the database (booking, transactions, account) is as before, no store
    call follows the guard's read, no dialog opens and the cached
    [userData] is untouched. *)
Theorem suspended_account_cannot_accept bookingId s s1 :
  checkAccountStatus s = (Ok false, s1) →
  ∃ s',
    handleBookingAction bookingId action_accepted s = (Ok tt, s') ∧
    db (world s') = db (world s) ∧
    log (world s') = log (world s1) ∧
    (∃ u, log (world s1) = log (world s) ++ [op_getDoc_users u]) ∧
    toasts s' = toasts s ++ [accountSuspendedToast] ∧
    auth s' = auth s ∧
    bookingMgmt s' = bookingMgmt s ∧
    walletCtx s' = walletCtx s.
Proof.
  intros Hguard.
  destruct (checkAccountStatus_spec s) as (b & s2 & Hrun & Hdb & Hf & Hwc & Hcase).
  rewrite Hguard in Hrun. injection Hrun as <- <-.
  destruct Hf as (Ha & Hbm & Hwm & Hts & Hrl).
  unfold handleBookingAction, bind, gets. rewrite Hguard. cbn.
  eexists. split; [reflexivity|]. cbn.
  rewrite Hts. repeat (split; [done|]). split; [|done].
  destruct (landlord (auth s)) as [[u ud]|]; [|by destruct Hcase].
  exists u. by destruct Hcase.
Qed.

Lemma suspended_account_cannot_accept_witness :
  let s := (fetchBookings (Demo.landlord_app (-3100) suspended [])).2 in
  ∃ s',
    handleBookingAction "B1" action_accepted s = (Ok tt, s') ∧
    db (world s') = db (world s) ∧
    toasts s' = toasts s ++ [accountSuspendedToast].
Proof.
  intros s.
  destruct (suspended_account_cannot_accept "B1" s (checkAccountStatus s).2
              ltac:(vm_compute; reflexivity))
    as (s' & Hrun & Hdb & _ & _ & Hts & _).
  exact (ex_intro _ s' (conj Hrun (conj Hdb Hts))).
Defined.

(** The tail of [handleBookingAction] when the write goes through. *)
Lemma updateBookingStatus_Ok bookings bookingId action s doc :
  booking_record s bookingId = Some doc →
  head (faults (world s)) ≠ Some true →
  ∃ s',
    updateBookingStatus bookings bookingId action s = (Ok tt, s') ∧
    db (world s') =
      upd_bookings (<[bookingId := set_status (status_of_action action) doc]>)
        (db (world s)) ∧
    log (world s') =
      log (world s) ++ [op_updateDoc_bookings bookingId (status_of_action action)] ∧
    auth s' = auth s ∧ walletCtx s' = walletCtx s ∧
    walletMgmt s' = walletMgmt s ∧
    BookingMgmt.showCommissionDialog (bookingMgmt s') =
      BookingMgmt.showCommissionDialog (bookingMgmt s) ∧
    BookingMgmt.selectedBooking (bookingMgmt s') =
      BookingMgmt.selectedBooking (bookingMgmt s) ∧
    reloadRequested s' = reloadRequested s ∧
    ∃ t, toasts s' = toasts s ++ [t] ∧ variant t = default_variant.
Proof.
  unfold booking_record, updateBookingStatus, setBookings. unfold_m.
  destruct s as [[d c fs lg] a wc bm wm ts rl]; cbn.
  intros Hdoc Hok.
  destruct fs as [|[] fs]; cbn in *; [|done|]; rewrite Hdoc; cbn;
    eexists; (split; [reflexivity|]); cbn; repeat (split; [done|]);
    eexists; by split.
Qed.

(** The same tail when the write is rejected or the booking does not
    exist: the database is unchanged and an error toast is shown. *)
Lemma updateBookingStatus_db bookings bookingId action s r s' :
  updateBookingStatus bookings bookingId action s = (r, s') →
  r = Ok tt ∧
  Db.users (db (world s')) = Db.users (db (world s)) ∧
  ledger s' = ledger s ∧
  log (world s') =
    log (world s) ++ [op_updateDoc_bookings bookingId (status_of_action action)] ∧
  auth s' = auth s.
Proof.
  unfold ledger, updateBookingStatus, setBookings. unfold_m.
  destruct s as [[d c fs lg] a wc bm wm ts rl]; cbn.
  destruct fs as [|[] fs]; cbn;
    try destruct (Db.bookings d !! bookingId); cbn; by intros [= <- <-].
Qed.

(** C7. A reject action on a pending booking, when the write goes through,
    sets the stored [status] to [rejected] and changes nothing else in the
    database: other bookings, the transaction log, the account records and
    the properties are as before.  The only store call is that write: the
    account record is not read (no guard) and no ledger call is made.  The
    price of the linked property plays no part. *)
Theorem reject_only_sets_booking_status bookingId s doc :
  booking_record s bookingId = Some doc →
  b_status doc = pending →
  head (faults (world s)) ≠ Some true →
  ∃ s',
    handleBookingAction bookingId action_rejected s = (Ok tt, s') ∧
    booking_record s' bookingId = Some (set_status rejected doc) ∧
    (∀ b, b ≠ bookingId → booking_record s' b = booking_record s b) ∧
    ledger s' = ledger s ∧
    Db.users (db (world s')) = Db.users (db (world s)) ∧
    Db.properties (db (world s')) = Db.properties (db (world s)) ∧
    log (world s') = log (world s) ++ [op_updateDoc_bookings bookingId rejected] ∧
    auth s' = auth s.
Proof.
  intros Hdoc _ Hok.
  destruct (updateBookingStatus_Ok (BookingMgmt.bookings (bookingMgmt s))
              bookingId action_rejected s doc Hdoc Hok)
    as (s' & Hrun & Hdb & Hlog & Ha & _).
  exists s'. split.
  { unfold handleBookingAction, bind, gets. exact Hrun. }
  unfold booking_record, ledger. rewrite Hdb. cbn.
  split; [apply lookup_insert_eq|].
  split; [intros b Hb; by apply lookup_insert_ne|]. done.
Qed.

Lemma reject_only_sets_booking_status_witness :
  let s := (fetchBookings (Demo.landlord_app 0 active [])).2 in
  ∃ s',
    handleBookingAction "B4" action_rejected s = (Ok tt, s') ∧
    (b_status <$> booking_record s' "B4") = Some rejected ∧
    ledger s' = ledger s ∧
    Db.users (db (world s')) = Db.users (db (world s)).
Proof.
  intros s.
  destruct (reject_only_sets_booking_status "B4" s (Demo.booking_doc "P4" 4)
              ltac:(vm_compute; reflexivity) eq_refl
              ltac:(vm_compute; discriminate))
    as (s' & Hrun & Hst & _ & Hled & Hus & _).
  exists s'. rewrite Hst.
  exact (conj Hrun (conj eq_refl (conj Hled Hus))).
Defined.

(** ** Recharging *)

(** C6, as amended.  The check [amount > 0] is made by [handleRecharge],
    the caller of [rechargeWallet]: when the entered amount does not parse
    to a number, or is zero or negative, [handleRecharge] shows an error
    toast and returns without calling [rechargeWallet]; no store call is
    made and nothing but the toast list changes. *)
Theorem handleRecharge_rejects_invalid_amount s :
  (WalletMgmt.rechargeAmount (walletMgmt s) = None ∨
   ∃ amount, WalletMgmt.rechargeAmount (walletMgmt s) = Some amount ∧
             (amount ≤ 0)%Qc) →
  ∃ s',
    handleRecharge s = (Ok tt, s') ∧
    world s' = world s ∧
    auth s' = auth s ∧
    walletCtx s' = walletCtx s ∧
    walletMgmt s' = walletMgmt s ∧
    bookingMgmt s' = bookingMgmt s ∧
    reloadRequested s' = reloadRequested s ∧
    toasts s' = toasts s ++ [invalidAmountToast].
Proof.
  intros H.
  assert (Hinv : invalidAmount (WalletMgmt.rechargeAmount (walletMgmt s)) = true).
  { unfold invalidAmount. destruct H as [-> | (a & -> & Ha)]; [done|].
    cbn. rewrite (bool_decide_eq_true_2 _ Ha). apply orb_true_r. }
  unfold handleRecharge, bind, gets. rewrite Hinv.
  eexists. split; [reflexivity|]. done.
Qed.

Lemma handleRecharge_rejects_invalid_amount_witness :
  let s := Demo.with_rechargeAmount (Some (Q2Qc (-5)))
             (Demo.landlord_app 0 active []) in
  ∃ s', handleRecharge s = (Ok tt, s') ∧ world s' = world s ∧
        toasts s' = [invalidAmountToast].
Proof.
  intros s.
  destruct (handleRecharge_rejects_invalid_amount s) as (s' & Hrun & Hw & H).
  - right. exists (Q2Qc (-5)). split; [reflexivity|]. vm_compute. discriminate.
  - exists s'. destruct H as (_ & _ & _ & _ & _ & Hts).
    exact (conj Hrun (conj Hw Hts)).
Defined.

(** C6, as the specification words it, fails: [rechargeWallet] called by a
    landlord with the amount −5 resolves, having appended a transaction
    and written a balance of −5. *)
Lemma rechargeWallet_accepts_nonpositive :
  ¬ rechargeWallet_rejects_nonpositive.
Proof.
  intros claim.
  pose (s := Demo.landlord_app 0 active []).
  destruct (claim s "L1" (Demo.landlord_doc 0 active) (Q2Qc (-5)) []
              eq_refl ltac:(vm_compute; discriminate)) as (e & He & _).
  assert (H : (rechargeWallet (Q2Qc (-5)) [] s).1 = Ok tt)
    by (vm_compute; reflexivity).
  rewrite H in He. discriminate He.
Qed.

(** What that call writes. *)
Example rechargeWallet_negative_amount_written :
  let s' := (rechargeWallet (Q2Qc (-5)) [] (Demo.landlord_app 0 active [])).2 in
  (this <$> (account s' "L1" ≫= walletBalance)) = Some (-5)%Q ∧
  length (ledger s') = 1.
Proof. vm_compute. done. Qed.

(** ** Confirming an acceptance *)

(** [deductCommission], whatever its outcome, makes no call on the
    bookings and leaves them, and the screens, as they were. *)
Lemma deductCommission_frame bid pid r s r1 s1 :
  deductCommission bid pid r s = (r1, s1) →
  ui_frame s s1 ∧
  Db.bookings (db (world s1)) = Db.bookings (db (world s)) ∧
  ∃ ops, log (world s1) = log (world s) ++ ops ∧
         Forall (λ op, ¬ is_booking_write op) ops.
Proof.
  destruct (landlord (auth s)) as [[u ud]|] eqn:Hl.
  - rewrite (deductCommission_landlord _ _ _ _ _ _ Hl). intros Hrun.
    apply ledger_write_spec in Hrun as (Hf & Hb & _ & _ & ops & Hlog & Hops).
    repeat (split; [done|]). eexists. split; [exact Hlog|].
    constructor.
    + intros (? & ? & [=]).
    + eapply Forall_impl; [|exact Hops].
      intros op [-> | [v ->]] (? & ? & [=]).
  - unfold deductCommission, bind, gets. rewrite Hl. intros [= <- <-].
    split; [by repeat split|]. split; [done|].
    exists []. rewrite app_nil_r. split; [done|constructor].
Qed.

(** C4. On confirmation of a booking with a rental amount,
    [deductCommission] runs first and makes no call on the bookings.  If
    it rejects, [confirmBookingAcceptance] makes no further store call: the
    booking record is as before the confirmation, the dialog stays open
    and an error toast is shown.  Only if it resolves is the write of
    [status: 'accepted'] attempted, after every call of the deduction. *)
Theorem commission_precedes_acceptance s b r1 s1 :
  BookingMgmt.selectedBooking (bookingMgmt s) = Some b →
  truthy (rentalAmount b) = true →
  deductCommission (id b) (b_propertyId (spread b))
    (or_zero (rentalAmount b)) s = (r1, s1) →
  ∃ s',
    confirmBookingAcceptance s = (Ok tt, s') ∧
    Db.bookings (db (world s1)) = Db.bookings (db (world s)) ∧
    (∃ ops, log (world s1) = log (world s) ++ ops ∧
            Forall (λ op, ¬ is_booking_write op) ops) ∧
    match r1 with
    | Throw _ =>
        db (world s') = db (world s1) ∧
        log (world s') = log (world s1) ∧
        booking_record s' (id b) = booking_record s (id b) ∧
        (∃ t, toasts s' = toasts s ++ [t] ∧ variant t = destructive) ∧
        bookingMgmt s' = bookingMgmt s ∧
        reloadRequested s' = reloadRequested s
    | Ok _ =>
        log (world s') =
          log (world s1) ++ [op_updateDoc_bookings (id b) accepted] ∧
        (∀ doc,
           booking_record s (id b) = Some doc →
           head (faults (world s1)) ≠ Some true →
           booking_record s' (id b) = Some (set_status accepted doc) ∧
           (∃ t, toasts s' = toasts s ++ [t] ∧ variant t = default_variant) ∧
           BookingMgmt.selectedBooking (bookingMgmt s') = None ∧
           reloadRequested s' = true)
    end.
Proof.
  intros Hsel Htr Hded.
  destruct (deductCommission_frame _ _ _ _ _ _ Hded)
    as ((Ha & Hbm & Hwm & Hts & Hrl) & Hbk & Hlog).
  unfold confirmBookingAcceptance, bind, gets, try_catch.
  rewrite Hsel, Htr, Hded. unfold booking_record.
  destruct r1 as [[]|e].
  - unfold setBookings, setShowCommissionDialog, setSelectedBooking. unfold_m.
    destruct s1 as [[d c fs lg] a1 wc1 bm1 wm1 ts1 rl1]; cbn in *.
    destruct fs as [|[] fs]; cbn;
      destruct (Db.bookings d !! id b) as [doc0|] eqn:Hdoc0; cbn;
      eexists; (split; [reflexivity|]); cbn;
      do 3 (split; [done|]);
      intros doc Hdoc Hok; try done; rewrite <- Hbk, Hdoc0 in Hdoc;
      try discriminate Hdoc; injection Hdoc as <-;
      rewrite lookup_insert_eq, Hts; (split; [done|]);
      (split; [by eexists|]); done.
  - unfold toast, modify. eexists. split; [reflexivity|]. cbn.
    rewrite Hts, Hbk, Hbm, Hrl. repeat (split; [done|]).
    split; [by eexists|]. done.
Qed.

Lemma commission_precedes_acceptance_witness :
  let s := ((fetchBookings ;; handleBookingAction "B1" action_accepted)
              (Demo.landlord_app 0 active (replicate 7 false ++ [true]))).2 in
  ∃ s',
    confirmBookingAcceptance s = (Ok tt, s') ∧
    (b_status <$> booking_record s' "B1") = Some pending ∧
    ∃ t, toasts s' = toasts s ++ [t] ∧ variant t = destructive.
Proof.
  intros s.
  edestruct (commission_precedes_acceptance s) as (s' & Hrun & _ & _ & Hcase).
  - vm_compute. reflexivity.
  - vm_compute. reflexivity.
  - vm_compute. reflexivity.
  - lazy beta iota in Hcase.
    destruct Hcase as (_ & _ & Hrec & Htoast & _).
    exists s'. split; [exact Hrun|]. split; [|exact Htoast].
    etransitivity; [exact (f_equal (fmap b_status) Hrec)|].
    vm_compute. reflexivity.
Defined.

(** ** Loading the bookings *)

Lemma insert_desc_Forall {A} (P : A → Prop) key x l :
  P x → Forall P l → Forall P (insert_desc key x l).
Proof.
  intros Hx. induction 1 as [|y l Hy Hl IH]; cbn [insert_desc].
  - constructor; [done | constructor].
  - destruct (key x <? key y)%nat; constructor; try done.
    by constructor.
Qed.

Lemma sort_desc_Forall {A} (P : A → Prop) key l :
  Forall P l → Forall P (sort_desc key l).
Proof.
  unfold sort_desc. induction 1; cbn; [constructor|].
  by apply insert_desc_Forall.
Qed.

Lemma same_but_traffic_refl s : same_but_traffic s s.
Proof. by repeat split. Qed.

Lemma same_but_traffic_trans s1 s2 s3 :
  same_but_traffic s1 s2 → same_but_traffic s2 s3 → same_but_traffic s1 s3.
Proof.
  unfold same_but_traffic, ui_frame. intros (? & (?&?&?&?&?) & ?) (? & (?&?&?&?&?) & ?).
  repeat split; congruence.
Qed.

Lemma round_trip_traffic op s r s' :
  round_trip op s = (r, s') → same_but_traffic s s'.
Proof.
  unfold round_trip. destruct s as [[d c fs lg] a wc bm wm ts rl]; cbn.
  destruct fs as [|[] fs]; intros [= <- <-]; by repeat split.
Qed.

Lemma loadBooking_spec pm kv s r s' :
  loadBooking pm kv s = (r, s') →
  same_but_traffic s s' ∧
  ∀ bk, r = Ok bk →
    id bk = kv.1 ∧ spread bk = kv.2 ∧
    rentalAmount bk = Some (resolveRentalAmount (pm !! b_propertyId kv.2)).
Proof.
  unfold loadBooking, getDoc_users, bind, gets, ret.
  destruct (round_trip _ s) as [[[]|e] s1] eqn:Hrt; intros [= <- <-];
    (split; [by eapply round_trip_traffic|]); [|done].
  by intros bk [= <-].
Qed.

Lemma promise_all_loadBooking pm d l : ∀ s r s',
  db (world s) = d →
  (∀ k p, pm !! k = Some p → Db.properties d !! k = Some p) →
  Forall (λ kv, Db.bookings d !! kv.1 = Some kv.2) l →
  promise_all (loadBooking pm) l s = (r, s') →
  same_but_traffic s s' ∧ ∀ bks, r = Ok bks → Forall (loaded_from d) bks.
Proof.
  induction l as [|kv l IH]; intros s r s' Hd Hpm Hl; cbn.
  - intros [= <- <-]. split; [apply same_but_traffic_refl|].
    intros bks [= <-]. constructor.
  - destruct (loadBooking pm kv s) as [r1 s1] eqn:H1.
    destruct (promise_all (loadBooking pm) l s1) as [rs s2] eqn:H2.
    intros [= <- <-].
    apply loadBooking_spec in H1 as [Ht1 Hbk].
    inversion Hl as [|? ? Hkv Hl']; subst.
    assert (Hd1 : db (world s1) = db (world s)) by apply Ht1.
    destruct (IH _ _ _ Hd1 Hpm Hl' H2) as [Ht2 Hbks].
    split; [by eapply same_but_traffic_trans|].
    intros bks Hr. destruct r1 as [bk|]; [|done].
    destruct rs as [bks'|]; [|done]. injection Hr as <-.
    constructor; [|by apply Hbks].
    destruct (Hbk bk eq_refl) as (Hid & Hsp & Hamt).
    exists (pm !! b_propertyId kv.2). rewrite Hid, Hsp.
    split; [done|]. split; [done|]. intros p. apply Hpm.
Qed.

Local Arguments setBookingsLoading : simpl never.

(** [fetchBookings] never rejects and writes nothing to the database;
    the list it shows is either the one it found or one it has just built
    from the stored records. *)
Lemma fetchBookings_spec s :
  ∃ s', fetchBookings s = (Ok tt, s') ∧
    db (world s') = db (world s) ∧ auth s' = auth s ∧
    toasts s' = toasts s ∧
    BookingMgmt.showCommissionDialog (bookingMgmt s') =
      BookingMgmt.showCommissionDialog (bookingMgmt s) ∧
    (BookingMgmt.bookings (bookingMgmt s') = BookingMgmt.bookings (bookingMgmt s) ∨
     Forall (loaded_from (db (world s))) (BookingMgmt.bookings (bookingMgmt s'))).
Proof.
  unfold fetchBookings, bind at 1, gets at 1.
  destruct (currentUser (auth s)) as [u|]; [|exists s; by auto 10].
  unfold finally, try_catch, bind at 1.
  destruct (getDocs_properties u s) as [r1 s1] eqn:H1.
  assert (Ht1 : same_but_traffic s s1 ∧
    ∀ ps, r1 = Ok ps →
      ∀ k p, (list_to_map ps : gmap string PropertyDoc) !! k = Some p →
             Db.properties (db (world s)) !! k = Some p).
  { revert H1. unfold getDocs_properties, bind, gets, ret.
    destruct (round_trip _ s) as [[[]|e] s0] eqn:Hrt; intros [= <- <-];
      pose proof (round_trip_traffic _ _ _ _ Hrt) as Ht; (split; [done|]);
      [|done].
    intros ps [= <-] k p Hk. apply elem_of_list_to_map_2 in Hk.
    apply list_elem_of_filter in Hk as [_ Hk].
    apply elem_of_map_to_list in Hk. destruct Ht as [<- _]. done. }
  destruct Ht1 as [Ht1 Hpm].
  assert (Hfin : ∀ x, same_but_traffic s x →
    ∃ s', setBookingsLoading false x = (Ok tt, s') ∧
      db (world s') = db (world s) ∧ auth s' = auth s ∧
      toasts s' = toasts s ∧
      BookingMgmt.showCommissionDialog (bookingMgmt s') =
        BookingMgmt.showCommissionDialog (bookingMgmt s) ∧
      BookingMgmt.bookings (bookingMgmt s') = BookingMgmt.bookings (bookingMgmt s)).
  { intros x (Hdb & (Ha & Hbm & _ & Hts & _) & _).
    eexists. split; [reflexivity|]. cbn. rewrite Hbm. done. }
  destruct r1 as [ps|e]; cbn.
  2:{ destruct (Hfin _ Ht1) as (s' & -> & ? & ? & ? & ? & ?). exists s'. by auto 10. }
  unfold bind at 1.
  destruct (getDocs_bookings u s1) as [r2 s2] eqn:H2.
  assert (Ht2 : same_but_traffic s1 s2 ∧
    ∀ bs, r2 = Ok bs →
      Forall (λ kv, Db.bookings (db (world s)) !! kv.1 = Some kv.2) bs).
  { revert H2. unfold getDocs_bookings, bind, gets, ret.
    destruct (round_trip _ s1) as [[[]|e] s0] eqn:Hrt; intros [= <- <-];
      pose proof (round_trip_traffic _ _ _ _ Hrt) as Ht; (split; [done|]);
      [|done].
    intros bs [= <-]. apply list.Forall_forall. intros [k v] Hk.
    apply list_elem_of_filter in Hk as [_ Hk].
    apply elem_of_map_to_list in Hk. destruct Ht as [Hd _], Ht1 as [Hd1 _].
    rewrite <- Hd1, <- Hd. done. }
  destruct Ht2 as [Ht2 Hbs].
  pose proof (same_but_traffic_trans _ _ _ Ht1 Ht2) as Ht12.
  destruct r2 as [bs|e]; cbn.
  2:{ destruct (Hfin _ Ht12) as (s' & -> & ? & ? & ? & ? & ?). exists s'. by auto 10. }
  unfold bind at 1.
  destruct (promise_all _ bs s2) as [r3 s3] eqn:H3.
  assert (Hd2 : db (world s2) = db (world s)) by apply Ht12.
  destruct (promise_all_loadBooking _ _ _ _ _ _ Hd2 (Hpm ps eq_refl)
              (Hbs bs eq_refl) H3) as [Ht3 Hloaded].
  pose proof (same_but_traffic_trans _ _ _ Ht12 Ht3) as Ht123.
  destruct r3 as [bks|e]; cbn.
  2:{ destruct (Hfin _ Ht123) as (s' & -> & ? & ? & ? & ? & ?). exists s'. by auto 10. }
  destruct Ht123 as (Hdb & (Ha & Hbm & _ & Hts & _) & _).
  eexists. split; [reflexivity|]. cbn. rewrite Hbm.
  repeat (split; [done|]). right.
  apply sort_desc_Forall. by apply Hloaded.
Qed.



(** ** Scenarios *)

(** From 0: the commission on a rent of 120000 leaves −3000, which is
    below −100, so the account is suspended at once; after the reload, the
    commission on a rent of 4000000 leaves −103000. *)
Example scenario_two_acceptances :
  let s1 := ((deductCommission "B4" "P4" (Q2Qc 120000) ;; fetchUserData "L1")
               (Demo.landlord_app 0 active [])).2 in
  let s2 := (deductCommission "B1" "P1" (Q2Qc 4000000) s1).2 in
  Demo.stored s1 = (Some (-3000)%Q, Some suspended) ∧
  Demo.stored s2 = (Some (-103000)%Q, Some suspended).
Proof. vm_compute. done. Qed.

(** Suspended at −103000: a recharge of 50000 leaves −53000, still
    suspended; after the reload, a recharge of 60000 leaves 7000 and
    reactivates. *)
Example scenario_two_recharges :
  let s1 := ((rechargeWallet (Q2Qc 50000) [] ;; fetchUserData "L1")
               (Demo.landlord_app (-103000) suspended [])).2 in
  let s2 := (rechargeWallet (Q2Qc 60000) [] s1).2 in
  Demo.stored s1 = (Some (-53000)%Q, Some suspended) ∧
  Demo.stored s2 = (Some 7000%Q, Some active).
Proof. vm_compute. done. Qed.

(** Boundaries: −99 to −100 suspends; −100 to 0 does not reactivate,
    −100 to 1 does. *)
Example scenario_boundaries :
  Demo.stored (deductCommission "B1" "P1" (Q2Qc 40)
            (Demo.landlord_app (-99) active [])).2
    = (Some (-100)%Q, Some suspended) ∧
  Demo.stored (rechargeWallet (Q2Qc 100) [] (Demo.landlord_app (-100) suspended [])).2
    = (Some 0%Q, Some suspended) ∧
  Demo.stored (rechargeWallet (Q2Qc 101) [] (Demo.landlord_app (-100) suspended [])).2
    = (Some 1%Q, Some active).
Proof. vm_compute. done. Qed.

(** The whole flow on booking [B1]: load, accept, confirm.  The commission
    of 100 is charged, the booking is accepted and a reload is requested. *)
Example scenario_accept_and_confirm :
  let '(r, s') :=
    (fetchBookings ;; handleBookingAction "B1" action_accepted ;;
     confirmBookingAcceptance) (Demo.landlord_app 0 active []) in
  r = Ok tt ∧
  Demo.stored s' = (Some (-100)%Q, Some suspended) ∧
  (b_status <$> booking_record s' "B1") = Some accepted ∧
  length (ledger s') = 1 ∧
  reloadRequested s' = true.
Proof. vm_compute. done. Qed.

(** The same flow when the update of the account record is rejected: the
    transaction has been appended, the balance has not moved, the booking
    stays pending and an error toast is shown. *)
Example scenario_rejected_account_update :
  let '(r, s') :=
    (fetchBookings ;; handleBookingAction "B1" action_accepted ;;
     confirmBookingAcceptance)
      (Demo.landlord_app 0 active (replicate 8 false ++ [true])) in
  r = Ok tt ∧
  Demo.stored s' = (Some 0%Q, Some active) ∧
  (b_status <$> booking_record s' "B1") = Some pending ∧
  length (ledger s') = 1 ∧
  (variant <$> toasts s') = [destructive].
Proof. vm_compute. done. Qed.

(** * Further properties *)

From stdpp Require Import sorting.

(** ** Sorting newest first *)

Lemma insert_desc_Permutation {A} (key : A → Timestamp) x l :
  insert_desc key x l ≡ₚ x :: l.
Proof.
  induction l as [|y l IH]; cbn [insert_desc]; [done|].
  destruct (key x <? key y)%nat; [|done].
  rewrite IH. apply Permutation_swap.
Qed.

Lemma sort_desc_Permutation {A} (key : A → Timestamp) l :
  sort_desc key l ≡ₚ l.
Proof.
  unfold sort_desc. induction l as [|x l IH]; cbn [foldr]; [done|].
  by rewrite insert_desc_Permutation, IH.
Qed.

Lemma insert_desc_newest_first {A} (key : A → Timestamp) x l :
  newest_first key l → newest_first key (insert_desc key x l).
Proof.
  unfold newest_first. induction 1 as [|y l Hl IH Hy]; cbn [insert_desc].
  - repeat constructor.
  - destruct (key x <? key y)%nat eqn:Hlt.
    + apply Nat.ltb_lt in Hlt. constructor; [done|].
      rewrite insert_desc_Permutation. constructor; [lia | done].
    + apply Nat.ltb_ge in Hlt. constructor; [by constructor|].
      constructor; [done|]. eapply list.Forall_impl; [exact Hy|].
      cbn. intros z Hz. lia.
Qed.

Lemma sort_desc_newest_first {A} (key : A → Timestamp) l :
  newest_first key (sort_desc key l).
Proof.
  unfold sort_desc. induction l as [|x l IH]; cbn [foldr]; [constructor|].
  by apply insert_desc_newest_first.
Qed.

Lemma newest_first_take {A} (key : A → Timestamp) n l :
  newest_first key l → newest_first key (take n l).
Proof.
  unfold newest_first. intros Hl. revert n.
  induction Hl as [|x l Hl IH Hx]; intros [|n]; cbn; try constructor.
  - apply IH.
  - by apply Forall_take.
Qed.

(** What [take n] drops from a list that is newest first is no newer than
    anything it keeps. *)
Lemma newest_first_take_drop {A} (key : A → Timestamp) n l a b :
  newest_first key l → a ∈ take n l → b ∈ drop n l → key b ≤ key a.
Proof.
  unfold newest_first. intros Hl Ha Hb. rewrite <- (take_drop n l) in Hl.
  by eapply (StronglySorted_app_1_elem_of _ _ _ a b Hl).
Qed.

(** ** The transaction list *)

Lemma elem_of_own_transactions s u t :
  t ∈ own_transactions s u ↔
  ledger s !! tx_id t = Some (tx_doc t) ∧ userId (tx_doc t) = u.
Proof.
  unfold own_transactions. rewrite list_elem_of_filter, elem_of_lookup_imap.
  split.
  - intros (Hu & i & d & -> & Hi). done.
  - intros (Hi & Hu). split; [done|]. exists (tx_id t), (tx_doc t).
    by destruct t.
Qed.

Lemma own_transactions_NoDup s u : NoDup (tx_id <$> own_transactions s u).
Proof.
  unfold own_transactions.
  eapply sublist_NoDup; [|apply fmap_sublist, sublist_filter].
  rewrite fmap_imap. cbn. rewrite (imap_seq_0 _ (λ i, i)), list_fmap_id.
  apply NoDup_seq.
Qed.

Lemma fetchTransactions_landlord s u ud :
  landlord (auth s) = Some (u, ud) →
  ∃ s', fetchTransactions s = (Ok tt, s') ∧
    db (world s') = db (world s) ∧
    WalletCtx.loading (walletCtx s') = false ∧
    WalletCtx.transactions (walletCtx s') =
      match faults (world s) with
      | true :: _ => WalletCtx.transactions (walletCtx s)
      | _ => take 50 (sort_desc (fun t => timestamp (tx_doc t))
                        (own_transactions s u))
      end.
Proof.
  intros Hl. unfold fetchTransactions, own_transactions, ledger. unfold_m.
  rewrite Hl. cbn.
  destruct s as [[d c fs lg] a wc bm wm ts rl]; cbn.
  destruct fs as [|[] fs]; cbn; eexists; (split; [reflexivity|]); done.
Qed.

(** X1. For a landlord whose query goes through, [fetchTransactions] shows
    at most 50 transactions, all of them the landlord's own, each under its
    document id, without repetition and newest first; every own transaction
    it leaves out is no newer than any it shows.  The database is not
    written and [loading] ends [false]. *)
Theorem fetchTransactions_shows_newest_own s u ud :
  landlord (auth s) = Some (u, ud) →
  goes_through s 0 →
  ∃ s', fetchTransactions s = (Ok tt, s') ∧
    db (world s') = db (world s) ∧
    WalletCtx.loading (walletCtx s') = false ∧
    let shown := WalletCtx.transactions (walletCtx s') in
    length shown = min 50 (length (own_transactions s u)) ∧
    (∀ t, t ∈ shown →
       ledger s !! tx_id t = Some (tx_doc t) ∧ userId (tx_doc t) = u) ∧
    NoDup (tx_id <$> shown) ∧
    newest_first (fun t => timestamp (tx_doc t)) shown ∧
    (∀ t t', t ∈ shown → t' ∈ own_transactions s u → t' ∉ shown →
       timestamp (tx_doc t') ≤ timestamp (tx_doc t)).
Proof.
  intros Hl Hgo.
  destruct (fetchTransactions_landlord s u ud Hl) as (s' & Hrun & Hdb & Hld & Hts).
  exists s'. do 3 (split; [done|]). cbn zeta. rewrite Hts. clear Hts.
  assert (Hfs : match faults (world s) with
                | true :: _ => False | _ => True end).
  { unfold goes_through in Hgo. by destruct (faults (world s)) as [|[] ?]. }
  destruct (faults (world s)) as [|[] fs]; try done; clear Hfs.
  all: set (key := fun t : WalletTransaction => timestamp (tx_doc t)).
  all: pose proof (sort_desc_Permutation key (own_transactions s u)) as Hperm.
  all: split; [by rewrite length_take, Hperm|].
  all: split; [intros t Ht; apply elem_of_own_transactions; rewrite <- Hperm;
               eapply elem_of_sublist; [exact Ht | apply sublist_take]|].
  all: split; [eapply sublist_NoDup; [|apply fmap_sublist, sublist_take];
               rewrite Hperm; apply own_transactions_NoDup|].
  all: split; [apply newest_first_take, sort_desc_newest_first|].
  all: intros t t' Ht Ht' Hnot; rewrite <- Hperm in Ht';
       rewrite <- (take_drop 50 (sort_desc key _)) in Ht';
       apply elem_of_app in Ht' as [? | Hdrop]; [done|];
       exact (newest_first_take_drop key 50 _ t t'
                (sort_desc_newest_first key _) Ht Hdrop).
Qed.

(** X2. When a landlord's query is rejected, [fetchTransactions] still
    resolves: the list shown before stays, [loading] ends [false] and the
    database is not written. *)
Theorem fetchTransactions_rejected_query_keeps_list s u ud :
  landlord (auth s) = Some (u, ud) →
  faults (world s) !! 0 = Some true →
  ∃ s', fetchTransactions s = (Ok tt, s') ∧
    db (world s') = db (world s) ∧
    WalletCtx.loading (walletCtx s') = false ∧
    WalletCtx.transactions (walletCtx s') =
      WalletCtx.transactions (walletCtx s).
Proof.
  intros Hl Hf.
  destruct (fetchTransactions_landlord s u ud Hl) as (s' & Hrun & Hdb & Hld & Hts).
  exists s'. do 3 (split; [done|]). rewrite Hts.
  by destruct (faults (world s)) as [|[] ?].
Qed.

(** ** Wallet writes that fail *)

Lemma ledger_write_rejected_append u mk_tx mk_patch s :
  faults (world s) !! 0 = Some true →
  ∃ s', ledger_write u mk_tx mk_patch s =
          (Throw (StoreError (op_addDoc_transactions (mk_tx (clock (world s))))), s') ∧
        db (world s') = db (world s) ∧ ui_frame s s'.
Proof.
  unfold ledger_write. unfold_m.
  destruct s as [[d c fs lg] a wc bm wm ts rl]; cbn.
  destruct fs as [|[] fs]; cbn; try done. intros _.
  eexists. split; [reflexivity|]. by repeat split.
Qed.

Lemma ledger_write_rejected_update u mk_tx mk_patch s :
  goes_through s 0 →
  faults (world s) !! 1 = Some true ∨ account s u = None →
  ∃ e s', ledger_write u mk_tx mk_patch s = (Throw e, s') ∧
    (e = StoreError (op_updateDoc_users u) ∨ e = NotFound (op_updateDoc_users u)) ∧
    ledger s' = ledger s ++ [mk_tx (clock (world s))] ∧
    Db.users (db (world s')) = Db.users (db (world s)) ∧
    Db.bookings (db (world s')) = Db.bookings (db (world s)) ∧
    ui_frame s s'.
Proof.
  unfold ledger_write, goes_through, account, ledger. unfold_m.
  destruct s as [[[us txs bs ps] c fs lg] a wc bm wm ts rl]; cbn.
  intros Hgo Hfail.
  destruct fs as [|[] [|[] fs]]; cbn in *; try done;
    try (destruct Hfail as [? | ->]; [done|]);
    try (destruct (us !! u) eqn:Hu; [by destruct Hfail|]);
    cbn; eexists _, _; (split; [reflexivity|]); cbn;
    (split; [by auto|]); by repeat split.
Qed.

Lemma ledger_write_resolves u mk_tx mk_patch s :
  goes_through s 0 → goes_through s 1 → is_Some (account s u) →
  (ledger_write u mk_tx mk_patch s).1 = Ok tt.
Proof.
  unfold ledger_write, goes_through, account. unfold_m.
  destruct s as [[[us txs bs ps] c fs lg] a wc bm wm ts rl]; cbn.
  intros H0 H1 [doc Hdoc].
  destruct fs as [|[] [|[] fs]]; cbn in *; try done; rewrite Hdoc; cbn;
    match goal with |- context [fetchTransactions ?x] =>
      destruct (fetchTransactions_spec x) as (s2 & -> & _) end; done.
Qed.

Lemma ledger_write_resolves_iff u mk_tx mk_patch s :
  (ledger_write u mk_tx mk_patch s).1 = Ok tt ↔
  goes_through s 0 ∧ goes_through s 1 ∧ is_Some (account s u).
Proof.
  split; [|intros (? & ? & ?); by apply ledger_write_resolves].
  intros Hok.
  destruct (decide (faults (world s) !! 0 = Some true)) as [H0|H0].
  { destruct (ledger_write_rejected_append u mk_tx mk_patch s H0) as (? & Hr & _).
    rewrite Hr in Hok. discriminate Hok. }
  split; [exact H0|].
  destruct (decide (faults (world s) !! 1 = Some true)) as [H1|H1].
  { destruct (ledger_write_rejected_update u mk_tx mk_patch s H0 (or_introl H1))
      as (? & ? & Hr & _).
    rewrite Hr in Hok. discriminate Hok. }
  split; [exact H1|].
  destruct (account s u) as [doc|] eqn:Hacc; [by eexists|].
  destruct (ledger_write_rejected_update u mk_tx mk_patch s H0 (or_intror Hacc))
    as (? & ? & Hr & _).
  rewrite Hr in Hok. discriminate Hok.
Qed.

(** X3. For a landlord, [deductCommission] and [rechargeWallet] resolve
    exactly when their first two store calls (the append and the account
    update) go through and the account record exists; the outcome of the
    closing refresh of the list plays no part. *)
Theorem wallet_write_resolves_iff s u ud :
  landlord (auth s) = Some (u, ud) →
  (∀ bid pid r,
     (deductCommission bid pid r s).1 = Ok tt ↔
     goes_through s 0 ∧ goes_through s 1 ∧ is_Some (account s u)) ∧
  (∀ amount d,
     (rechargeWallet amount d s).1 = Ok tt ↔
     goes_through s 0 ∧ goes_through s 1 ∧ is_Some (account s u)).
Proof.
  intros Hl. split; intros.
  - rewrite (deductCommission_landlord _ _ _ _ _ _ Hl).
    apply ledger_write_resolves_iff.
  - rewrite (rechargeWallet_landlord _ _ _ _ _ Hl).
    apply ledger_write_resolves_iff.
Qed.

(** X4. When the append of the transaction is rejected, a landlord's
    [deductCommission] and [rechargeWallet] reject with that error and the
    database is exactly as before. *)
Theorem wallet_write_rejected_append_writes_nothing s u ud :
  landlord (auth s) = Some (u, ud) →
  faults (world s) !! 0 = Some true →
  (∀ bid pid r, ∃ op s',
     deductCommission bid pid r s = (Throw (StoreError op), s') ∧
     db (world s') = db (world s)) ∧
  (∀ amount d, ∃ op s',
     rechargeWallet amount d s = (Throw (StoreError op), s') ∧
     db (world s') = db (world s)).
Proof.
  intros Hl Hf. split; intros.
  - rewrite (deductCommission_landlord _ _ _ _ _ _ Hl).
    match goal with |- context [ledger_write ?v ?t ?p s] =>
      destruct (ledger_write_rejected_append v t p s Hf) as (s' & Hr & Hdb & _)
    end.
    rewrite Hr. by eexists _, _.
  - rewrite (rechargeWallet_landlord _ _ _ _ _ Hl).
    match goal with |- context [ledger_write ?v ?t ?p s] =>
      destruct (ledger_write_rejected_append v t p s Hf) as (s' & Hr & Hdb & _)
    end.
    rewrite Hr. by eexists _, _.
Qed.

(** X5. The two writes are not atomic.  When the append goes through and
    the update of the account then fails (the call is rejected, or the
    account record does not exist), a landlord's [deductCommission] and
    [rechargeWallet] reject having appended their transaction: the ledger
    has one more entry, whose [balanceAfter] is the balance that was never
    written, and the account records are as before. *)
Theorem wallet_write_partial_commit s u ud :
  landlord (auth s) = Some (u, ud) →
  goes_through s 0 →
  faults (world s) !! 1 = Some true ∨ account s u = None →
  (∀ bid pid r, ∃ e s',
     deductCommission bid pid r s = (Throw e, s') ∧
     ledger s' = ledger s ++ [commissionTx u bid pid r ud (clock (world s))] ∧
     Db.users (db (world s')) = Db.users (db (world s))) ∧
  (∀ amount d, ∃ e s',
     rechargeWallet amount d s = (Throw e, s') ∧
     ledger s' = ledger s ++ [rechargeTx u amount d ud (clock (world s))] ∧
     Db.users (db (world s')) = Db.users (db (world s))).
Proof.
  intros Hl Hgo Hfail. split; intros.
  - rewrite (deductCommission_landlord _ _ _ _ _ _ Hl).
    match goal with |- context [ledger_write ?v ?t ?p s] =>
      destruct (ledger_write_rejected_update v t p s Hgo Hfail)
        as (e & s' & Hr & _ & Hled & Hus & _)
    end.
    rewrite Hr. by eexists _, _.
  - rewrite (rechargeWallet_landlord _ _ _ _ _ Hl).
    match goal with |- context [ledger_write ?v ?t ?p s] =>
      destruct (ledger_write_rejected_update v t p s Hgo Hfail)
        as (e & s' & Hr & _ & Hled & Hus & _)
    end.
    rewrite Hr. by eexists _, _.
Qed.

(** ** What no operation does to the database *)

Section Preserves.
Context {R : App → App → Prop}.
Hypothesis R_refl : ∀ s, R s s.
Hypothesis R_trans : ∀ a b c, R a b → R b c → R a c.

Lemma preserves_ret {A} (a : A) : preserves R (ret a).
Proof using R_refl. intros s r s' [= <- <-]. apply R_refl. Qed.

Lemma preserves_throw {A} e : preserves R (@throw A e).
Proof using R_refl. intros s r s' [= <- <-]. apply R_refl. Qed.

Lemma preserves_gets {A} (f : App → A) : preserves R (gets f).
Proof using R_refl. intros s r s' [= <- <-]. apply R_refl. Qed.

Lemma preserves_bind {A B} (m : M A) (k : A → M B) :
  preserves R m → (∀ a, preserves R (k a)) → preserves R (bind m k).
Proof using R_trans.
  intros Hm Hk s r s'. unfold bind.
  destruct (m s) as [[a|e] s1] eqn:H1.
  - intros H2. eapply R_trans; [by eapply Hm | by eapply Hk].
  - intros [= <- <-]. by eapply Hm.
Qed.

Lemma preserves_try_catch {A} (m : M A) h :
  preserves R m → (∀ e, preserves R (h e)) → preserves R (try_catch m h).
Proof using R_trans.
  intros Hm Hh s r s'. unfold try_catch.
  destruct (m s) as [[a|e] s1] eqn:H1.
  - intros [= <- <-]. by eapply Hm.
  - intros H2. eapply R_trans; [by eapply Hm | by eapply Hh].
Qed.

Lemma preserves_finally {A} (m : M A) f :
  preserves R m → preserves R f → preserves R (finally m f).
Proof using R_trans.
  intros Hm Hf s r s'. unfold finally.
  destruct (m s) as [r1 s1] eqn:H1. destruct (f s1) as [[[]|e] s2] eqn:H2;
    intros [= <- <-]; (eapply R_trans; [by eapply Hm | by eapply Hf]).
Qed.

Lemma preserves_promise_all {A B} (f : A → M B) l :
  (∀ x, preserves R (f x)) → preserves R (promise_all f l).
Proof using R_refl R_trans.
  intros Hf. induction l as [|x l IH]; intros s r s'; cbn.
  - intros [= <- <-]. apply R_refl.
  - destruct (f x s) as [r1 s1] eqn:H1.
    destruct (promise_all f l s1) as [rs s2] eqn:H2.
    intros [= <- <-]. eapply R_trans; [by eapply Hf | by eapply IH].
Qed.
End Preserves.

Lemma db_frame_refl d : db_frame d d.
Proof. by repeat split. Qed.

Lemma db_frame_trans a b c : db_frame a b → db_frame b c → db_frame a c.
Proof.
  intros (H1 & H2 & H3 & H4) (H1' & H2' & H3' & H4'). repeat split.
  - by etrans.
  - congruence.
  - intros u. by rewrite H3'.
  - intros H. by apply H4, H4'.
  - intros H. by apply H4', H4.
Qed.

Lemma frame_refl s : on_db db_frame s s.
Proof. apply db_frame_refl. Qed.

Lemma frame_trans a b c :
  on_db db_frame a b → on_db db_frame b c → on_db db_frame a c.
Proof. apply db_frame_trans. Qed.

Lemma frame_modify_ui f :
  (∀ s, db (world (f s)) = db (world s)) → preserves (on_db db_frame) (modify f).
Proof.
  intros Hf s r s' [= <- <-]. unfold on_db. rewrite Hf. apply db_frame_refl.
Qed.

Lemma frame_round_trip op : preserves (on_db db_frame) (round_trip op).
Proof.
  intros s r s' H. apply round_trip_traffic in H as [H _].
  unfold on_db. rewrite H. apply db_frame_refl.
Qed.

Lemma frame_append x :
  preserves (on_db db_frame)
    (modify (on_world (upd_db (upd_transactions (fun l => l ++ [x]))))).
Proof.
  intros s r s' [= <- <-]. unfold on_db, db_frame, upd_transactions. cbn.
  repeat split; try done. by apply prefix_app_r.
Qed.

Lemma frame_patch u p doc s :
  Db.users (db (world s)) !! u = Some doc →
  on_db db_frame s
    (on_world (upd_db (upd_users (<[u := apply_patch p doc]>))) s).
Proof.
  intros Hdoc. unfold on_db, db_frame, upd_users. cbn. repeat split; try done.
  intros v. destruct (decide (u = v)) as [<-|Hne].
  - by rewrite lookup_insert_eq, Hdoc.
  - by rewrite lookup_insert_ne.
Qed.

Lemma frame_status b st doc s :
  Db.bookings (db (world s)) !! b = Some doc →
  on_db db_frame s
    (on_world (upd_db (upd_bookings (<[b := set_status st doc]>))) s).
Proof.
  intros Hdoc. unfold on_db, db_frame, upd_bookings. cbn. repeat split; try done;
    destruct (decide (b = b0)) as [<-|Hne];
    rewrite ?lookup_insert_eq, ?Hdoc; try rewrite lookup_insert_ne by done;
    done.
Qed.

Lemma frame_updateDoc_users u p :
  preserves (on_db db_frame) (updateDoc_users u p).
Proof.
  unfold updateDoc_users.
  apply (preserves_bind frame_trans); [apply frame_round_trip|intros _].
  intros s r s'. unfold bind, gets.
  destruct (Db.users (db (world s)) !! u) as [doc|] eqn:Hdoc;
    intros [= <- <-]; [by apply frame_patch | apply frame_refl].
Qed.

Lemma frame_updateDoc_bookings b st :
  preserves (on_db db_frame) (updateDoc_bookings b st).
Proof.
  unfold updateDoc_bookings.
  apply (preserves_bind frame_trans); [apply frame_round_trip|intros _].
  intros s r s'. unfold bind, gets.
  destruct (Db.bookings (db (world s)) !! b) as [doc|] eqn:Hdoc;
    intros [= <- <-]; [by apply frame_status | apply frame_refl].
Qed.

Ltac frame_step :=
  lazymatch goal with
  | |- preserves _ (bind _ _) =>
      apply (preserves_bind frame_trans); [|intros ?]
  | |- preserves _ (try_catch _ _) =>
      apply (preserves_try_catch frame_trans); [|intros ?]
  | |- preserves _ (finally _ _) => apply (preserves_finally frame_trans)
  | |- preserves _ (promise_all _ _) =>
      apply (preserves_promise_all frame_refl frame_trans); intros ?
  | |- preserves _ (ret _) => apply (preserves_ret frame_refl)
  | |- preserves _ (throw _) => apply (preserves_throw frame_refl)
  | |- preserves _ (gets _) => apply (preserves_gets frame_refl)
  | |- preserves _ (round_trip _) => apply frame_round_trip
  | |- preserves _ (updateDoc_users _ _) => apply frame_updateDoc_users
  | |- preserves _ (updateDoc_bookings _ _) => apply frame_updateDoc_bookings
  | |- preserves _ (modify _) =>
      first [ apply frame_append
            | apply frame_modify_ui; intros ?; reflexivity ]
  | |- preserves _ (match ?x with _ => _ end) => destruct x
  | _ => solve [auto]
  end.

Ltac frame :=
  unfold setLoading, setTransactions, toast, reload, setBookings,
    setBookingsLoading, setShowCommissionDialog, setSelectedBooking,
    setRechargeAmount, setRechargeLoading, setShowRechargeDialog, now,
    addDoc_transactions, getDoc_users, getDocs_transactions,
    getDocs_properties, getDocs_bookings;
  cbv zeta; repeat frame_step.

Lemma frame_fetchUserData u : preserves (on_db db_frame) (fetchUserData u).
Proof. unfold fetchUserData. frame. Qed.

Lemma frame_fetchTransactions : preserves (on_db db_frame) fetchTransactions.
Proof. unfold fetchTransactions. frame. Qed.

Lemma frame_deductCommission b p r :
  preserves (on_db db_frame) (deductCommission b p r).
Proof.
  pose proof frame_fetchTransactions. unfold deductCommission. frame.
Qed.

Lemma frame_rechargeWallet a d :
  preserves (on_db db_frame) (rechargeWallet a d).
Proof.
  pose proof frame_fetchTransactions. unfold rechargeWallet. frame.
Qed.

Lemma frame_checkAccountStatus : preserves (on_db db_frame) checkAccountStatus.
Proof. unfold checkAccountStatus. frame. Qed.

Lemma frame_fetchBookings : preserves (on_db db_frame) fetchBookings.
Proof. unfold fetchBookings, loadBooking. frame. Qed.

Lemma frame_handleBookingAction b a :
  preserves (on_db db_frame) (handleBookingAction b a).
Proof.
  pose proof frame_checkAccountStatus.
  unfold handleBookingAction, updateBookingStatus. frame.
Qed.

Lemma frame_confirmBookingAcceptance :
  preserves (on_db db_frame) confirmBookingAcceptance.
Proof.
  pose proof frame_deductCommission.
  unfold confirmBookingAcceptance. frame.
Qed.

Lemma frame_handleRecharge : preserves (on_db db_frame) handleRecharge.
Proof.
  pose proof frame_rechargeWallet. unfold handleRecharge. frame.
Qed.

(** X6. Whatever their outcome, none of the operations of the wallet
    context, the booking screen and the recharge dialog deletes or edits a
    transaction already in the ledger, writes a property, creates or
    deletes a user or booking record, or changes a user's role. *)
Theorem operations_keep_the_database_frame :
  (∀ u, preserves (on_db db_frame) (fetchUserData u)) ∧
  preserves (on_db db_frame) fetchTransactions ∧
  (∀ b p r, preserves (on_db db_frame) (deductCommission b p r)) ∧
  (∀ a d, preserves (on_db db_frame) (rechargeWallet a d)) ∧
  preserves (on_db db_frame) checkAccountStatus ∧
  preserves (on_db db_frame) fetchBookings ∧
  (∀ b a, preserves (on_db db_frame) (handleBookingAction b a)) ∧
  preserves (on_db db_frame) confirmBookingAcceptance ∧
  preserves (on_db db_frame) handleRecharge.
Proof.
  split; [exact frame_fetchUserData|].
  split; [exact frame_fetchTransactions|].
  split; [exact frame_deductCommission|].
  split; [exact frame_rechargeWallet|].
  split; [exact frame_checkAccountStatus|].
  split; [exact frame_fetchBookings|].
  split; [exact frame_handleBookingAction|].
  split; [exact frame_confirmBookingAcceptance|].
  exact frame_handleRecharge.
Qed.

(** ** Handlers that never reject *)

Lemma never_rejects_ret {A} (a : A) : never_rejects (ret a).
Proof. intros s. by eexists _, _. Qed.

Lemma never_rejects_gets {A} (f : App → A) : never_rejects (gets f).
Proof. intros s. by eexists _, _. Qed.

Lemma never_rejects_modify f : never_rejects (modify f).
Proof. intros s. by eexists _, _. Qed.

Lemma never_rejects_bind {A B} (m : M A) (k : A → M B) :
  never_rejects m → (∀ a, never_rejects (k a)) → never_rejects (bind m k).
Proof.
  intros Hm Hk s. unfold bind. destruct (Hm s) as (a & s1 & ->). apply Hk.
Qed.

(** A [try] block whose handler always resolves always resolves. *)
Lemma never_rejects_try_catch {A} (m : M A) h :
  (∀ e, never_rejects (h e)) → never_rejects (try_catch m h).
Proof.
  intros Hh s. unfold try_catch. destruct (m s) as [[a|e] s1].
  - by eexists _, _.
  - apply Hh.
Qed.

Lemma never_rejects_finally {A} (m : M A) f :
  never_rejects m → never_rejects f → never_rejects (finally m f).
Proof.
  intros Hm Hf s. unfold finally. destruct (Hm s) as (a & s1 & ->).
  destruct (Hf s1) as ([] & s2 & ->). by eexists _, _.
Qed.

Ltac resolves_step :=
  lazymatch goal with
  | |- never_rejects (bind _ _) => apply never_rejects_bind; [|intros ?]
  | |- never_rejects (try_catch _ _) => apply never_rejects_try_catch; intros ?
  | |- never_rejects (finally _ _) => apply never_rejects_finally
  | |- never_rejects (ret _) => apply never_rejects_ret
  | |- never_rejects (gets _) => apply never_rejects_gets
  | |- never_rejects (modify _) => apply never_rejects_modify
  | |- never_rejects (match ?x with _ => _ end) => destruct x
  | _ => solve [auto]
  end.

Ltac resolves :=
  unfold setLoading, setTransactions, toast, reload, setBookings,
    setBookingsLoading, setShowCommissionDialog, setSelectedBooking,
    setRechargeAmount, setRechargeLoading, setShowRechargeDialog;
  cbv zeta; repeat resolves_step.

Lemma never_rejects_fetchTransactions : never_rejects fetchTransactions.
Proof. unfold fetchTransactions. resolves. Qed.

Lemma never_rejects_checkAccountStatus : never_rejects checkAccountStatus.
Proof. unfold checkAccountStatus. resolves. Qed.

Lemma never_rejects_fetchBookings : never_rejects fetchBookings.
Proof. unfold fetchBookings. resolves. Qed.

Lemma never_rejects_handleBookingAction b a :
  never_rejects (handleBookingAction b a).
Proof.
  pose proof never_rejects_checkAccountStatus.
  unfold handleBookingAction, updateBookingStatus. resolves.
Qed.

Lemma never_rejects_confirmBookingAcceptance :
  never_rejects confirmBookingAcceptance.
Proof. unfold confirmBookingAcceptance. resolves. Qed.

Lemma never_rejects_handleRecharge : never_rejects handleRecharge.
Proof. unfold handleRecharge. resolves. Qed.

(** X7. The handlers of the screens and the two read helpers never reject,
    whatever the store does: [fetchTransactions], [checkAccountStatus],
    [fetchBookings], [handleBookingAction], [confirmBookingAcceptance] and
    [handleRecharge] always resolve (a failure inside them ends in their
    own [catch]). *)
Theorem handlers_never_reject :
  never_rejects fetchTransactions ∧
  never_rejects checkAccountStatus ∧
  never_rejects fetchBookings ∧
  (∀ b a, never_rejects (handleBookingAction b a)) ∧
  never_rejects confirmBookingAcceptance ∧
  never_rejects handleRecharge.
Proof.
  split; [exact never_rejects_fetchTransactions|].
  split; [exact never_rejects_checkAccountStatus|].
  split; [exact never_rejects_fetchBookings|].
  split; [exact never_rejects_handleBookingAction|].
  split; [exact never_rejects_confirmBookingAcceptance|].
  exact never_rejects_handleRecharge.
Qed.

(** ** The booking screen, case by case *)

Ltac preserving Hrefl Htrans Htraffic tac :=
  unfold setLoading, setTransactions, toast, reload, setBookings,
    setBookingsLoading, setShowCommissionDialog, setSelectedBooking,
    setRechargeAmount, setRechargeLoading, setShowRechargeDialog, now,
    addDoc_transactions, updateDoc_users, updateDoc_bookings, getDoc_users,
    getDocs_transactions, getDocs_properties, getDocs_bookings;
  cbv zeta;
  repeat lazymatch goal with
  | |- preserves _ (bind _ _) => apply (preserves_bind Htrans); [|intros ?]
  | |- preserves _ (try_catch _ _) =>
      apply (preserves_try_catch Htrans); [|intros ?]
  | |- preserves _ (finally _ _) => apply (preserves_finally Htrans)
  | |- preserves _ (promise_all _ _) =>
      apply (preserves_promise_all Hrefl Htrans); intros ?
  | |- preserves _ (ret _) => apply (preserves_ret Hrefl)
  | |- preserves _ (throw _) => apply (preserves_throw Hrefl)
  | |- preserves _ (gets _) => apply (preserves_gets Hrefl)
  | |- preserves _ (round_trip _) =>
      intros ? ? ? ?%round_trip_traffic; by apply Htraffic
  | |- preserves _ (modify _) => intros ? ? ? [= <- <-]; tac
  | |- preserves _ (match ?x with _ => _ end) => destruct x
  | _ => solve [auto]
  end.

Lemma beside_wallet_refl s : beside_wallet s s.
Proof. by repeat split. Qed.

Lemma beside_wallet_trans a b c :
  beside_wallet a b → beside_wallet b c → beside_wallet a c.
Proof.
  unfold beside_wallet, ui_frame.
  intros (?&?&?&?&?&?&?) (?&?&?&?&?&?&?). repeat split; congruence.
Qed.

Lemma beside_wallet_traffic s s' : same_but_traffic s s' → beside_wallet s s'.
Proof. intros (Hdb & ? & _). unfold beside_wallet. by rewrite Hdb. Qed.

Ltac beside_wallet :=
  preserving beside_wallet_refl beside_wallet_trans beside_wallet_traffic
    ltac:(by repeat split).

Lemma fetchTransactions_beside_wallet : preserves beside_wallet fetchTransactions.
Proof. unfold fetchTransactions. beside_wallet. Qed.

Lemma deductCommission_beside_wallet b p r :
  preserves beside_wallet (deductCommission b p r).
Proof.
  pose proof fetchTransactions_beside_wallet.
  unfold deductCommission. beside_wallet.
Qed.

Lemma rechargeWallet_beside_wallet a d :
  preserves beside_wallet (rechargeWallet a d).
Proof.
  pose proof fetchTransactions_beside_wallet.
  unfold rechargeWallet. beside_wallet.
Qed.

(** The write of a booking status, in full. *)
Lemma updateBookingStatus_cases bookings bookingId action s :
  ∃ s',
    updateBookingStatus bookings bookingId action s = (Ok tt, s') ∧
    log (world s') =
      log (world s) ++ [op_updateDoc_bookings bookingId (status_of_action action)] ∧
    auth s' = auth s ∧ walletCtx s' = walletCtx s ∧
    walletMgmt s' = walletMgmt s ∧ reloadRequested s' = reloadRequested s ∧
    BookingMgmt.selectedBooking (bookingMgmt s') =
      BookingMgmt.selectedBooking (bookingMgmt s) ∧
    BookingMgmt.showCommissionDialog (bookingMgmt s') =
      BookingMgmt.showCommissionDialog (bookingMgmt s) ∧
    ((goes_through s 0 ∧
      ∃ doc, booking_record s bookingId = Some doc ∧
        db (world s') =
          upd_bookings (<[bookingId := set_status (status_of_action action) doc]>)
            (db (world s)) ∧
        BookingMgmt.bookings (bookingMgmt s') =
          mark bookingId (status_of_action action) bookings ∧
        ∃ t, toasts s' = toasts s ++ [t] ∧ variant t = default_variant) ∨
     ((faults (world s) !! 0 = Some true ∨ booking_record s bookingId = None) ∧
      db (world s') = db (world s) ∧
      bookingMgmt s' = bookingMgmt s ∧
      ∃ t, toasts s' = toasts s ++ [t] ∧ variant t = destructive ∧
           title t = "خطأ")).
Proof.
  unfold booking_record, goes_through, updateBookingStatus, setBookings, mark.
  unfold_m.
  destruct s as [[d c fs lg] a wc bm wm ts rl]; cbn.
  destruct fs as [|[] fs]; cbn;
    try destruct (Db.bookings d !! bookingId) as [doc|] eqn:Hdoc; cbn;
    eexists; (split; [reflexivity|]); cbn; do 7 (split; [done|]).
  - left. split; [intros H; discriminate H|]. exists doc.
    do 3 (split; [done|]). by eexists.
  - right. split; [by right|]. do 2 (split; [done|]). by eexists.
  - right. split; [by left|]. destruct bm. do 2 (split; [done|]). by eexists.
  - right. split; [by left|]. destruct bm. do 2 (split; [done|]). by eexists.
  - left. split; [intros H; discriminate H|]. exists doc.
    do 3 (split; [done|]). by eexists.
  - right. split; [by right|]. do 2 (split; [done|]). by eexists.
Qed.

(** The answer of the guard is [false] exactly when the stored status
    bars the landlord. *)
Lemma checkAccountStatus_false_iff s b s1 :
  checkAccountStatus s = (Ok b, s1) → (b = false ↔ stored_status_bars s).
Proof.
  intros Hrun.
  destruct (checkAccountStatus_spec s) as (b' & s2 & Hrun' & _ & _ & _ & Hcase).
  rewrite Hrun in Hrun'. injection Hrun' as <- <-.
  unfold stored_status_bars, goes_through.
  destruct (landlord (auth s)) as [[u ud]|] eqn:Hl.
  - destruct Hcase as (_ & _ & ->). split.
    + intros Hb. exists u, ud.
      destruct (faults (world s)) as [|[] fs]; try done;
        (destruct (account s u) as [doc|]; [|done]); exists doc;
        (repeat split; [done..|]);
        intros Hact; by rewrite (bool_decide_eq_true_2 _ Hact) in Hb.
    + intros (u' & ud' & doc & [= <- <-] & Hgo & Hacc & Hst).
      rewrite Hacc.
      destruct (faults (world s)) as [|[] fs]; cbn in Hgo; try done;
        by apply bool_decide_eq_false_2.
  - destruct Hcase as [-> _]. split; [done|].
    intros (? & ? & ? & [=] & _).
Qed.

(** [handleBookingAction] for an accept, unfolded after the guard. *)
Lemma handleBookingAction_accept bookingId s :
  ∃ b s1,
    checkAccountStatus s = (Ok b, s1) ∧
    handleBookingAction bookingId action_accepted s =
    (if negb b || bool_decide (cached_status_bars s)
     then toast accountSuspendedToast s1
     else match listed s bookingId with
          | Some bk =>
              if truthy (rentalAmount bk)
              then bind (setSelectedBooking (Some bk))
                     (fun _ => setShowCommissionDialog true) s1
              else updateBookingStatus (BookingMgmt.bookings (bookingMgmt s))
                     bookingId action_accepted s1
          | None =>
              updateBookingStatus (BookingMgmt.bookings (bookingMgmt s))
                bookingId action_accepted s1
          end).
Proof.
  destruct (checkAccountStatus_spec s) as (b & s1 & Hrun & _).
  exists b, s1. split; [done|].
  unfold handleBookingAction, listed, cached_status_bars, bind at 1 2 3, gets.
  rewrite Hrun.
  destruct (negb b || _); [done|].
  destruct (List.find _ _) as [bk|]; [|done]. by destruct (truthy _).
Qed.

Lemma chargeSelected_beside_wallet sb : preserves beside_wallet (chargeSelected sb).
Proof.
  unfold chargeSelected. destruct (truthy _).
  - apply deductCommission_beside_wallet.
  - apply (preserves_ret beside_wallet_refl).
Qed.

(** [confirmBookingAcceptance] for a selected booking, in full. *)
Lemma confirmBookingAcceptance_cases s sb :
  BookingMgmt.selectedBooking (bookingMgmt s) = Some sb →
  ∃ r1 s1,
    chargeSelected sb s = (r1, s1) ∧ beside_wallet s s1 ∧
    ∃ s',
      confirmBookingAcceptance s = (Ok tt, s') ∧
      auth s' = auth s ∧ walletCtx s' = walletCtx s1 ∧
      walletMgmt s' = walletMgmt s ∧
      match r1 with
      | Throw _ =>
          db (world s') = db (world s1) ∧
          log (world s') = log (world s1) ∧
          bookingMgmt s' = bookingMgmt s ∧
          reloadRequested s' = reloadRequested s ∧
          ∃ t, toasts s' = toasts s ++ [t] ∧ variant t = destructive
      | Ok _ =>
          log (world s') =
            log (world s1) ++ [op_updateDoc_bookings (id sb) accepted] ∧
          ((goes_through s1 0 ∧
            ∃ doc, booking_record s (id sb) = Some doc ∧
              db (world s') =
                upd_bookings (<[id sb := set_status accepted doc]>)
                  (db (world s1)) ∧
              BookingMgmt.bookings (bookingMgmt s') =
                mark (id sb) accepted (BookingMgmt.bookings (bookingMgmt s)) ∧
              BookingMgmt.selectedBooking (bookingMgmt s') = None ∧
              BookingMgmt.showCommissionDialog (bookingMgmt s') = false ∧
              reloadRequested s' = true ∧
              ∃ t, toasts s' = toasts s ++ [t] ∧ variant t = default_variant) ∨
           ((faults (world s1) !! 0 = Some true ∨
             booking_record s (id sb) = None) ∧
            db (world s') = db (world s1) ∧
            bookingMgmt s' = bookingMgmt s ∧
            reloadRequested s' = reloadRequested s ∧
            ∃ t, toasts s' = toasts s ++ [t] ∧ variant t = destructive))
      end.
Proof.
  intros Hsel.
  destruct (chargeSelected sb s) as [r1 s1] eqn:Hcharge.
  pose proof (chargeSelected_beside_wallet sb _ _ _ Hcharge)
    as (Hbk & Hpr & Ha & Hbm & Hwm & Hts & Hrl).
  exists r1, s1. split; [done|]. split; [by repeat split|].
  unfold confirmBookingAcceptance, bind at 1 2, gets, try_catch. rewrite Hsel.
  unfold bind at 1. fold (chargeSelected sb). rewrite Hcharge.
  unfold booking_record, goes_through. rewrite <- Hbk.
  destruct r1 as [[]|e].
  - unfold setBookings, setShowCommissionDialog, setSelectedBooking, mark.
    unfold_m.
    destruct s1 as [[d c fs lg] a1 wc1 bm1 wm1 ts1 rl1]; cbn in *.
    destruct fs as [|[] fs]; cbn;
      destruct (Db.bookings d !! id sb) as [doc0|] eqn:Hdoc0; cbn;
      eexists; (split; [reflexivity|]); cbn; do 4 (split; [done|]);
      rewrite <- ?Hbm, <- ?Hts, <- ?Hrl.
    + left. split; [intros H; discriminate H|]. exists doc0.
      do 6 (split; [done|]). by eexists.
    + right. split; [by right|]. do 3 (split; [done|]). by eexists.
    + right. split; [by left|]. do 3 (split; [done|]). by eexists.
    + right. split; [by left|]. do 3 (split; [done|]). by eexists.
    + left. split; [intros H; discriminate H|]. exists doc0.
      do 6 (split; [done|]). by eexists.
    + right. split; [by right|]. do 3 (split; [done|]). by eexists.
  - unfold toast, modify. eexists. split; [reflexivity|]. cbn.
    rewrite Hts. do 7 (split; [done|]). by eexists.
Qed.

(** ** The accept guard *)

Lemma toasts_not_extended (ts : list Toast) t : ts ≠ ts ++ [t].
Proof.
  intros H. apply (f_equal length) in H. rewrite length_app in H.
  cbn in H. lia.
Qed.

(** X8. An accept attempt is refused with the "account suspended" toast
    exactly when the landlord's record was read and its stored status is
    not ['active'], or the cached [userData] says ['suspended'] (whatever
    the store holds).  A refusal leaves the database and the booking screen
    as they were. *)
Theorem accept_refused_iff bookingId s r s' :
  handleBookingAction bookingId action_accepted s = (r, s') →
  (toasts s' = toasts s ++ [accountSuspendedToast] ↔
   stored_status_bars s ∨ cached_status_bars s) ∧
  (stored_status_bars s ∨ cached_status_bars s →
   db (world s') = db (world s) ∧ bookingMgmt s' = bookingMgmt s).
Proof.
  intros Hrun.
  destruct (handleBookingAction_accept bookingId s) as (b & s1 & Hguard & Heq).
  rewrite Heq in Hrun. clear Heq.
  destruct (checkAccountStatus_spec s)
    as (b' & s2 & Hg' & Hdb & (Ha & Hbm & Hwm & Hts & Hrl) & _).
  rewrite Hguard in Hg'. injection Hg' as <- <-.
  pose proof (checkAccountStatus_false_iff s b s1 Hguard) as Hstored.
  assert (Hcond : negb b || bool_decide (cached_status_bars s) = true ↔
                  stored_status_bars s ∨ cached_status_bars s).
  { rewrite orb_true_iff, negb_true_iff, bool_decide_eq_true. by rewrite Hstored. }
  destruct (negb b || bool_decide (cached_status_bars s)) eqn:Hc.
  - injection Hrun as <- <-. cbn. rewrite Hts.
    split; [split; [intros _; by apply Hcond | done] | done].
  - assert (Hno : ¬ (stored_status_bars s ∨ cached_status_bars s)).
    { intros H. apply Hcond in H. discriminate H. }
    split; [|done]. split; [|done]. intros Htoast. exfalso.
    assert (Hupd : ∀ bs r s',
      updateBookingStatus bs bookingId action_accepted s1 = (r, s') →
      toasts s' ≠ toasts s ++ [accountSuspendedToast]).
    { intros bs r0 s0 Hu.
      destruct (updateBookingStatus_cases bs bookingId action_accepted s1)
        as (s3 & Hu' & _ & _ & _ & _ & _ & _ & _ &
            [(_ & _ & _ & _ & _ & t & Ht & Hv) | (_ & _ & _ & t & Ht & _ & Hv)]);
        rewrite Hu in Hu'; injection Hu' as -> ->; rewrite Ht, Hts;
        intros [_ ->]%app_inj_tail; discriminate Hv. }
    destruct (listed s bookingId) as [bk|]; [|by eapply Hupd].
    destruct (truthy (rentalAmount bk)); [|by eapply Hupd].
    injection Hrun as <- <-. cbn in Htoast. rewrite Hts in Htoast.
    by eapply toasts_not_extended.
Qed.

(** X9. When the guard lets the accept through and the listed booking has
    a rental amount, [handleBookingAction] only selects it and opens the
    commission dialog: nothing is written, the only store call is the
    guard's read of the account, no toast is shown, and the list is as it
    was. *)
Theorem accept_priced_booking_opens_dialog bookingId s bk :
  ¬ stored_status_bars s →
  ¬ cached_status_bars s →
  listed s bookingId = Some bk →
  truthy (rentalAmount bk) = true →
  ∃ s',
    handleBookingAction bookingId action_accepted s = (Ok tt, s') ∧
    db (world s') = db (world s) ∧
    BookingMgmt.selectedBooking (bookingMgmt s') = Some bk ∧
    BookingMgmt.showCommissionDialog (bookingMgmt s') = true ∧
    BookingMgmt.bookings (bookingMgmt s') = BookingMgmt.bookings (bookingMgmt s) ∧
    toasts s' = toasts s ∧
    reloadRequested s' = reloadRequested s ∧
    ∃ ops, log (world s') = log (world s) ++ ops ∧
           Forall (λ op, ∃ u, op = op_getDoc_users u) ops.
Proof.
  intros Hns Hnc Hlisted Hrent.
  destruct (handleBookingAction_accept bookingId s) as (b & s1 & Hguard & ->).
  destruct (checkAccountStatus_spec s)
    as (b' & s2 & Hg' & Hdb & (Ha & Hbm & Hwm & Hts & Hrl) & _ & Hcase).
  rewrite Hguard in Hg'. injection Hg' as <- <-.
  pose proof (checkAccountStatus_false_iff s b s1 Hguard) as Hstored.
  destruct b; [|by destruct Hns; apply Hstored].
  rewrite (bool_decide_eq_false_2 _ Hnc), Hlisted, Hrent. cbn.
  eexists. split; [reflexivity|]. cbn. rewrite Hbm.
  do 6 (split; [done|]).
  destruct (landlord (auth s)) as [[u ud]|].
  - destruct Hcase as (Hlog & _). eexists. split; [exact Hlog|].
    repeat constructor. by eexists.
  - destruct Hcase as [_ ->]. exists []. by rewrite app_nil_r.
Qed.

(** ** Failing booking writes *)

(** X10. When the write of a reject is rejected by the store, or the
    booking no longer exists, [handleBookingAction] resolves with an error
    toast: the database and the booking screen, local list included, are
    as before. *)
Theorem reject_failed_write_changes_nothing bookingId s :
  faults (world s) !! 0 = Some true ∨ booking_record s bookingId = None →
  ∃ s',
    handleBookingAction bookingId action_rejected s = (Ok tt, s') ∧
    db (world s') = db (world s) ∧
    bookingMgmt s' = bookingMgmt s ∧
    ∃ t, toasts s' = toasts s ++ [t] ∧ variant t = destructive.
Proof.
  intros Hfail.
  destruct (updateBookingStatus_cases (BookingMgmt.bookings (bookingMgmt s))
              bookingId action_rejected s)
    as (s' & Hrun & _ & _ & _ & _ & _ & _ & _ & Hcase).
  exists s'. split; [by unfold handleBookingAction, bind, gets|].
  destruct Hcase as [(Hgo & doc & Hdoc & _) | (_ & Hdb & Hbm & t & Ht & Hv & _)].
  - destruct Hfail as [Hf | Hnone]; [done | congruence].
  - do 2 (split; [done|]). by exists t.
Qed.

(** X11. The commission is not given back.  When [deductCommission] has
    resolved for the selected booking and the write of [status: 'accepted']
    then fails (rejected, or the booking no longer exists),
    [confirmBookingAcceptance] resolves with an error toast: what the
    deduction wrote stays, the booking record is untouched, the dialog
    stays open on the same booking and no reload is requested. *)
Theorem confirm_failed_booking_write_keeps_commission s sb s1 :
  BookingMgmt.selectedBooking (bookingMgmt s) = Some sb →
  truthy (rentalAmount sb) = true →
  deductCommission (id sb) (b_propertyId (spread sb))
    (or_zero (rentalAmount sb)) s = (Ok tt, s1) →
  faults (world s1) !! 0 = Some true ∨ booking_record s (id sb) = None →
  ∃ s',
    confirmBookingAcceptance s = (Ok tt, s') ∧
    db (world s') = db (world s1) ∧
    Db.bookings (db (world s')) = Db.bookings (db (world s)) ∧
    bookingMgmt s' = bookingMgmt s ∧
    reloadRequested s' = reloadRequested s ∧
    ∃ t, toasts s' = toasts s ++ [t] ∧ variant t = destructive.
Proof.
  intros Hsel Hrent Hded Hfail.
  destruct (confirmBookingAcceptance_cases s sb Hsel)
    as (r1 & s1' & Hcharge & (Hbk & _) & s' & Hrun & _ & _ & _ & Hcase).
  unfold chargeSelected in Hcharge. rewrite Hrent, Hded in Hcharge.
  injection Hcharge as <- <-.
  exists s'. split; [done|].
  destruct Hcase as (_ & [(Hgo & doc & Hdoc & _) | (_ & Hdb & Hbm & Hrl & Ht)]).
  - destruct Hfail as [Hf | Hnone]; [done | congruence].
  - split; [done|]. split; [by rewrite Hdb|]. done.
Qed.

(** ** Invariants of the booking screen *)

Lemma same_selection_refl s : same_selection s s.
Proof. done. Qed.

Lemma same_selection_trans a b c :
  same_selection a b → same_selection b c → same_selection a c.
Proof. unfold same_selection. congruence. Qed.

Lemma same_selection_traffic s s' : same_but_traffic s s' → same_selection s s'.
Proof. intros (_ & (_ & Hbm & _) & _). unfold same_selection. by rewrite Hbm. Qed.

Lemma fetchBookings_same_selection : preserves same_selection fetchBookings.
Proof.
  unfold fetchBookings, loadBooking.
  preserving same_selection_refl same_selection_trans same_selection_traffic
    ltac:(reflexivity).
Qed.

(** X12. The booking selected for confirmation always has a rental amount:
    this holds when nothing is selected and is kept by [fetchBookings],
    [handleBookingAction] and [confirmBookingAcceptance], so that a
    confirmation always begins with a call to [deductCommission]. *)
Theorem selection_always_has_rent :
  (∀ s, BookingMgmt.selectedBooking (bookingMgmt s) = None →
        selection_has_rent s) ∧
  keeps selection_has_rent fetchBookings ∧
  (∀ b a, keeps selection_has_rent (handleBookingAction b a)) ∧
  keeps selection_has_rent confirmBookingAcceptance.
Proof.
  unfold keeps, selection_has_rent. split; [|split; [|split]].
  - intros s -> b [=].
  - intros s r s' Hinv Hrun.
    rewrite (fetchBookings_same_selection _ _ _ Hrun). exact Hinv.
  - intros b [] s r s' Hinv Hrun.
    + destruct (handleBookingAction_accept b s) as (g & s1 & Hguard & Heq).
      rewrite Heq in Hrun. clear Heq.
      destruct (checkAccountStatus_spec s)
        as (g' & s2 & Hg' & _ & (_ & Hbm & _) & _).
      rewrite Hguard in Hg'. injection Hg' as <- <-.
      assert (Hupd : ∀ bs,
        updateBookingStatus bs b action_accepted s1 = (r, s') →
        ∀ bk, BookingMgmt.selectedBooking (bookingMgmt s') = Some bk →
              truthy (rentalAmount bk) = true).
      { intros bs Hu.
        destruct (updateBookingStatus_cases bs b action_accepted s1)
          as (s3 & Hu' & _ & _ & _ & _ & _ & Hsel & _).
        rewrite Hu in Hu'. injection Hu' as -> ->. rewrite Hsel, Hbm.
        exact Hinv. }
      destruct (negb g || _).
      { injection Hrun as <- <-. cbn. rewrite Hbm. exact Hinv. }
      destruct (listed s b) as [bk|]; [|by eapply Hupd].
      destruct (truthy (rentalAmount bk)) eqn:Hrent; [|by eapply Hupd].
      injection Hrun as <- <-. cbn. by intros ? [= <-].
    + unfold handleBookingAction, bind, gets in Hrun.
      destruct (updateBookingStatus_cases (BookingMgmt.bookings (bookingMgmt s))
                  b action_rejected s)
        as (s3 & Hu' & _ & _ & _ & _ & _ & Hsel & _).
      rewrite Hrun in Hu'. injection Hu' as -> ->. rewrite Hsel. exact Hinv.
  - intros s r s' Hinv Hrun.
    destruct (BookingMgmt.selectedBooking (bookingMgmt s)) as [sb|] eqn:Hsel.
    + destruct (confirmBookingAcceptance_cases s sb Hsel)
        as (r1 & s1 & _ & _ & s3 & Hrun' & _ & _ & _ & Hcase).
      rewrite Hrun in Hrun'. injection Hrun' as -> ->.
      destruct r1 as [[]|e].
      * destruct Hcase as (_ & [(_ & doc & _ & _ & _ & Hnone & _) | (_ & _ & Hbm & _)]).
        -- rewrite Hnone. by intros ? [=].
        -- rewrite Hbm, Hsel. exact Hinv.
      * destruct Hcase as (_ & _ & Hbm & _). rewrite Hbm, Hsel. exact Hinv.
    + unfold confirmBookingAcceptance, bind, gets in Hrun. rewrite Hsel in Hrun.
      injection Hrun as <- <-. rewrite Hsel. exact Hinv.
Qed.

Lemma loaded_from_ext d d' bk :
  Db.bookings d' = Db.bookings d → Db.properties d' = Db.properties d →
  loaded_from d bk → loaded_from d' bk.
Proof.
  intros Hb Hp (pd & ? & ? & ?). exists pd. rewrite Hb, Hp. done.
Qed.

Lemma mark_in_step d bookingId st doc l :
  Db.bookings d !! bookingId = Some doc →
  Forall (loaded_from d) l →
  Forall (loaded_from (upd_bookings (<[bookingId := set_status st doc]>) d))
    (mark bookingId st l).
Proof.
  intros Hdoc Hl. unfold mark. apply Forall_fmap.
  eapply list.Forall_impl; [exact Hl|].
  intros bk (pd & Hrec & Hamt & Hpd). cbn.
  case_bool_decide as Hid; exists pd; unfold upd_bookings; cbn.
  - rewrite Hid, lookup_insert_eq. rewrite Hid, Hdoc in Hrec.
    injection Hrec as ->. done.
  - rewrite lookup_insert_ne by done. done.
Qed.

(** X13. The booking list stays in step with the store.  If every listed
    booking is as [loadBooking] builds it from the stored records (in
    particular shows the stored status), this is still so after
    [fetchBookings], [handleBookingAction], [confirmBookingAcceptance],
    [deductCommission] and [rechargeWallet], whatever their outcome. *)
Theorem booking_list_stays_in_step :
  keeps list_in_step fetchBookings ∧
  (∀ b a, keeps list_in_step (handleBookingAction b a)) ∧
  keeps list_in_step confirmBookingAcceptance ∧
  (∀ b p r, keeps list_in_step (deductCommission b p r)) ∧
  (∀ a d, keeps list_in_step (rechargeWallet a d)).
Proof.
  unfold keeps, list_in_step.
  assert (Hwallet : ∀ s s', beside_wallet s s' →
    Forall (loaded_from (db (world s))) (BookingMgmt.bookings (bookingMgmt s)) →
    Forall (loaded_from (db (world s'))) (BookingMgmt.bookings (bookingMgmt s'))).
  { intros s s' (Hb & Hp & _ & Hbm & _) Hl. rewrite Hbm.
    eapply list.Forall_impl; [exact Hl|]. intros bk. by apply loaded_from_ext. }
  assert (Hupd : ∀ b a s r s',
    Forall (loaded_from (db (world s))) (BookingMgmt.bookings (bookingMgmt s)) →
    ∀ s0, db (world s0) = db (world s) → bookingMgmt s0 = bookingMgmt s →
    updateBookingStatus (BookingMgmt.bookings (bookingMgmt s)) b a s0 = (r, s') →
    Forall (loaded_from (db (world s'))) (BookingMgmt.bookings (bookingMgmt s'))).
  { intros b a s r s' Hl s0 Hdb0 Hbm0 Hu.
    destruct (updateBookingStatus_cases (BookingMgmt.bookings (bookingMgmt s))
                b a s0)
      as (s3 & Hu' & _ & _ & _ & _ & _ & _ & _ &
          [(_ & doc & Hdoc & Hdb & Hbks & _) | (_ & Hdb & Hbm & _)]);
      rewrite Hu in Hu'; injection Hu' as -> ->.
    - rewrite Hdb, Hbks, Hdb0. apply mark_in_step; [|done].
      unfold booking_record in Hdoc. by rewrite Hdb0 in Hdoc.
    - by rewrite Hdb, Hbm, Hdb0, Hbm0. }
  split; [|split; [|split; [|split]]].
  - intros s r s' Hl Hrun.
    destruct (fetchBookings_spec s) as (s3 & Hrun' & Hdb & _ & _ & _ & Hbks).
    rewrite Hrun in Hrun'. injection Hrun' as -> ->. rewrite Hdb.
    destruct Hbks as [-> | H]; done.
  - intros b [] s r s' Hl Hrun.
    + destruct (handleBookingAction_accept b s) as (g & s1 & Hguard & Heq).
      rewrite Heq in Hrun. clear Heq.
      destruct (checkAccountStatus_spec s)
        as (g' & s2 & Hg' & Hdb & (_ & Hbm & _) & _).
      rewrite Hguard in Hg'. injection Hg' as <- <-.
      destruct (negb g || _).
      { injection Hrun as <- <-. cbn. by rewrite Hdb, Hbm. }
      destruct (listed s b) as [bk|]; [|by eapply Hupd].
      destruct (truthy (rentalAmount bk)); [|by eapply Hupd].
      injection Hrun as <- <-. cbn. by rewrite Hdb, Hbm.
    + unfold handleBookingAction, bind, gets in Hrun. by eapply Hupd.
  - intros s r s' Hl Hrun.
    destruct (BookingMgmt.selectedBooking (bookingMgmt s)) as [sb|] eqn:Hsel.
    + destruct (confirmBookingAcceptance_cases s sb Hsel)
        as (r1 & s1 & _ & Hbw & s3 & Hrun' & _ & _ & _ & Hcase).
      rewrite Hrun in Hrun'. injection Hrun' as -> ->.
      pose proof (Hwallet _ _ Hbw Hl) as Hl1.
      destruct Hbw as (Hb & Hp & _ & Hbm & _).
      destruct r1 as [[]|e].
      * destruct Hcase as (_ & [(_ & doc & Hdoc & Hdb & Hbks & _) | (_ & Hdb & Hbm' & _)]).
        -- rewrite Hdb, Hbks, <- Hbm. apply mark_in_step; [|done].
           unfold booking_record in Hdoc. by rewrite Hb.
        -- by rewrite Hdb, Hbm', <- Hbm.
      * destruct Hcase as (Hdb & _ & Hbm' & _). by rewrite Hdb, Hbm', <- Hbm.
    + unfold confirmBookingAcceptance, bind, gets in Hrun. rewrite Hsel in Hrun.
      by injection Hrun as <- <-.
  - intros b p r s r0 s' Hl Hrun.
    eapply Hwallet; [|done]. by eapply deductCommission_beside_wallet.
  - intros a d s r0 s' Hl Hrun.
    eapply Hwallet; [|done]. by eapply rechargeWallet_beside_wallet.
Qed.

(** ** Sequences of wallet calls *)

(** One resolved call followed by a resolved reload. *)
Lemma wallet_call_then_reload c s s1 s2 u doc :
  landlord (auth s) = Some (u, doc) →
  account s u = Some doc →
  runWalletCall c s = (Ok tt, s1) →
  fetchUserData u s1 = (Ok tt, s2) →
  ∃ doc2 tx,
    landlord (auth s2) = Some (u, doc2) ∧
    account s2 u = Some doc2 ∧
    ledger s2 = ledger s ++ [tx] ∧
    userId tx = u ∧
    amount tx = signedAmount c ∧
    balanceAfter tx = (or_zero (walletBalance doc) + signedAmount c)%Qc ∧
    walletBalance doc2 = Some (balanceAfter tx) ∧
    accountStatus doc2 =
      match c with
      | call_deduct _ _ _ =>
          if bool_decide (balanceAfter tx ≤ Q2Qc (-100))%Qc
          then Some suspended else accountStatus doc
      | call_recharge _ _ =>
          if bool_decide (0 < balanceAfter tx)%Qc
          then Some active else accountStatus doc
      end.
Proof.
  intros Hl Hacc Hcall Hfetch.
  assert (Hstep : ∃ p tx,
    Db.users (db (world s1)) =
      <[u := apply_patch p doc]> (Db.users (db (world s))) ∧
    ledger s1 = ledger s ++ [tx] ∧ auth s1 = auth s ∧
    userId tx = u ∧ amount tx = signedAmount c ∧
    balanceAfter tx = (or_zero (walletBalance doc) + signedAmount c)%Qc ∧
    patch_walletBalance p = balanceAfter tx ∧
    patch_accountStatus p =
      match c with
      | call_deduct _ _ _ =>
          if bool_decide (balanceAfter tx ≤ Q2Qc (-100))%Qc
          then Some suspended else None
      | call_recharge _ _ =>
          if bool_decide (0 < balanceAfter tx)%Qc then Some active else None
      end).
  { destruct c as [b p r | a d]; cbn [runWalletCall] in Hcall.
    - destruct (deductCommission_Ok _ _ _ _ _ _ _ Hl Hcall)
        as (doc0 & Hdoc0 & Hus & Hled & Hauth).
      rewrite Hacc in Hdoc0. injection Hdoc0 as <-.
      eexists _, _. do 3 (split; [done|]). cbn.
      do 2 (split; [done|]). split; [ring|]. done.
    - destruct (rechargeWallet_Ok _ _ _ _ _ _ Hl Hcall)
        as (doc0 & Hdoc0 & Hus & Hled & Hauth).
      rewrite Hacc in Hdoc0. injection Hdoc0 as <-.
      eexists _, _. do 3 (split; [done|]). cbn. done. }
  destruct Hstep as (p & tx & Hus & Hled & Hauth & Huid & Hamt & Hbal & Hpb & Hps).
  pose proof (account_after_insert _ _ _ _ Hus) as Hacc1.
  destruct (fetchUserData_Ok _ _ _ Hfetch) as (Hdb & Hcu & Hud).
  rewrite Hacc1 in Hud.
  apply landlord_Some in Hl as (Hcu0 & Hud0 & Hrole).
  exists (apply_patch p doc), tx.
  split; [apply landlord_Some; by rewrite Hcu, Hauth|].
  split; [unfold account in *; by rewrite Hdb|].
  split; [unfold ledger in *; by rewrite Hdb|].
  do 3 (split; [done|]). cbn. rewrite Hpb. split; [done|].
  rewrite Hps. destruct c; by case_bool_decide.
Qed.

Lemma runReloading_cons u c cs s s' :
  runReloading u (c :: cs) s = (Ok tt, s') →
  ∃ s1 s2, runWalletCall c s = (Ok tt, s1) ∧
           fetchUserData u s1 = (Ok tt, s2) ∧
           runReloading u cs s2 = (Ok tt, s').
Proof.
  cbn [runReloading]. intros H.
  apply bind_Ok in H as ([] & s1 & H1 & H).
  apply bind_Ok in H as ([] & s2 & H2 & H). eauto.
Qed.


Lemma Qc_minus_nonneg_le (b x : Qc) : (0 ≤ x)%Qc → (b + - x ≤ b)%Qc.
Proof.
  intros H. apply Qcopp_le_compat in H.
  replace (- 0)%Qc with 0%Qc in H by (apply Qc_is_canon; reflexivity).
  apply (Qcplus_le_mono_l _ _ b) in H. by rewrite Qcplus_0_r in H.
Qed.

Lemma Qc_plus_nonneg_le (b x : Qc) : (0 ≤ x)%Qc → (b ≤ b + x)%Qc.
Proof.
  intros H. apply (Qcplus_le_mono_l _ _ b) in H. by rewrite Qcplus_0_r in H.
Qed.

Lemma threshold_le_0 : (Q2Qc (-100) ≤ 0)%Qc.
Proof. vm_compute. intros H. discriminate H. Qed.

Lemma commissionRate_nonneg : (0 ≤ commissionRate)%Qc.
Proof. vm_compute. intros H. discriminate H. Qed.

(** X15. The status keeps to a band.  For a landlord whose cache is in
    step with the store, if an active account is above −100 and a
    suspended one is not above 0, this is still so after any sequence of
    successful calls, reloaded after each, whose rental amounts and
    recharge amounts are not negative. *)
Theorem status_keeps_to_band cs : ∀ s s' u doc,
  landlord (auth s) = Some (u, doc) →
  account s u = Some doc →
  within_band doc →
  Forall (λ c, (0 ≤ callSize c)%Qc) cs →
  runReloading u cs s = (Ok tt, s') →
  ∃ doc', account s' u = Some doc' ∧ within_band doc'.
Proof.
  induction cs as [|c cs IH]; intros s s' u doc Hl Hacc Hband Hcs Hrun.
  { injection Hrun as <-. by exists doc. }
  apply runReloading_cons in Hrun as (s1 & s2 & Hcall & Hfetch & Hrun).
  destruct (wallet_call_then_reload _ _ _ _ _ _ Hl Hacc Hcall Hfetch)
    as (doc2 & tx & Hl2 & Hacc2 & _ & _ & _ & Hbal & Hwb & Hst).
  inversion Hcs as [|? ? Hc Hcs']; subst.
  eapply (IH _ _ _ _ Hl2 Hacc2); [|done..].
  destruct Hband as [Hact Hsus]. unfold within_band.
  rewrite Hwb, Hst. cbn [or_zero default]. rewrite Hbal. clear Hst Hwb Hbal.
  set (b0 := or_zero (walletBalance doc)) in *.
  destruct c as [b p r | a d]; cbn [signedAmount callSize] in *.
  - assert (Hle : (b0 + - (r * commissionRate) ≤ b0)%Qc).
    { apply Qc_minus_nonneg_le, Qcmult_nonneg_nonneg;
        [done | apply commissionRate_nonneg]. }
    case_bool_decide as Hthr.
    + split; [intros H; discriminate H|]. intros _.
      eapply Qcle_trans; [exact Hthr | apply threshold_le_0].
    + split; [intros _; by apply Qcnot_le_lt|].
      intros Hs. eapply Qcle_trans; [exact Hle | by apply Hsus].
  - case_bool_decide as Hpos.
    + split; [|intros H; discriminate H]. intros _.
      eapply Qcle_lt_trans; [apply threshold_le_0 | exact Hpos].
    + split; [|intros _; by apply Qcnot_lt_le].
      intros Ha. eapply Qclt_le_trans; [by apply Hact|].
      by apply Qc_plus_nonneg_le.
Qed.

(** ** The further properties at work *)

Lemma fetchTransactions_shows_newest_own_witness :
  ∃ s',
    fetchTransactions Cases.after_two_charges = (Ok tt, s') ∧
    length (WalletCtx.transactions (walletCtx s')) =
      min 50 (length (own_transactions Cases.after_two_charges "L1")).
Proof.
  edestruct (fetchTransactions_shows_newest_own Cases.after_two_charges "L1")
    as (s' & Hrun & _ & _ & Hlen & _).
  - vm_compute. reflexivity.
  - vm_compute. intros H. discriminate H.
  - exact (ex_intro _ s' (conj Hrun Hlen)).
Defined.

Lemma fetchTransactions_rejected_query_keeps_list_witness :
  ∃ s',
    fetchTransactions (Demo.landlord_app 0 active [true]) = (Ok tt, s') ∧
    WalletCtx.transactions (walletCtx s') = [].
Proof.
  edestruct (fetchTransactions_rejected_query_keeps_list
               (Demo.landlord_app 0 active [true]) "L1")
    as (s' & Hrun & _ & _ & Hts).
  - vm_compute. reflexivity.
  - vm_compute. reflexivity.
  - exact (ex_intro _ s' (conj Hrun Hts)).
Defined.

Lemma wallet_write_resolves_iff_witness :
  (deductCommission "B1" "P1" (Q2Qc 4000)
     (Demo.landlord_app 0 active [false; false; true])).1 = Ok tt.
Proof.
  refine (proj2 (proj1 (wallet_write_resolves_iff
                          (Demo.landlord_app 0 active [false; false; true])
                          "L1" (Demo.landlord_doc 0 active) eq_refl)
                   "B1" "P1" (Q2Qc 4000)) _).
  split; [|split].
  - vm_compute. intros H. discriminate H.
  - vm_compute. intros H. discriminate H.
  - exists (Demo.landlord_doc 0 active). vm_compute. reflexivity.
Defined.

Lemma wallet_write_rejected_append_writes_nothing_witness :
  ∃ op s',
    rechargeWallet (Q2Qc 500) [] (Demo.landlord_app 0 active [true]) =
      (Throw (StoreError op), s') ∧
    db (world s') = db (world (Demo.landlord_app 0 active [true])).
Proof.
  refine (proj2 (wallet_write_rejected_append_writes_nothing
                   (Demo.landlord_app 0 active [true])
                   "L1" (Demo.landlord_doc 0 active) eq_refl _)
            (Q2Qc 500) []).
  vm_compute. reflexivity.
Defined.

Lemma wallet_write_partial_commit_witness :
  ∃ e s',
    deductCommission "B1" "P1" (Q2Qc 4000)
      (Demo.landlord_app 0 active [false; true]) = (Throw e, s') ∧
    ledger s' =
      ledger (Demo.landlord_app 0 active [false; true]) ++
      [commissionTx "L1" "B1" "P1" (Q2Qc 4000) (Demo.landlord_doc 0 active) 100] ∧
    Db.users (db (world s')) =
      Db.users (db (world (Demo.landlord_app 0 active [false; true]))).
Proof.
  refine (proj1 (wallet_write_partial_commit
                   (Demo.landlord_app 0 active [false; true])
                   "L1" (Demo.landlord_doc 0 active) eq_refl _ _)
            "B1" "P1" (Q2Qc 4000)).
  - vm_compute. intros H. discriminate H.
  - left. vm_compute. reflexivity.
Defined.

Lemma accept_refused_iff_witness :
  toasts (handleBookingAction "B1" action_accepted Cases.stale_suspended).2 =
  toasts Cases.stale_suspended ++ [accountSuspendedToast].
Proof.
  refine (proj2 (proj1 (accept_refused_iff "B1" Cases.stale_suspended _ _
                          (surjective_pairing _))) _).
  right. vm_compute. reflexivity.
Defined.

Lemma accept_priced_booking_opens_dialog_witness :
  ∃ s',
    handleBookingAction "B1" action_accepted Cases.loaded = (Ok tt, s') ∧
    db (world s') = db (world Cases.loaded) ∧
    BookingMgmt.showCommissionDialog (bookingMgmt s') = true.
Proof.
  edestruct (accept_priced_booking_opens_dialog "B1" Cases.loaded)
    as (s' & Hrun & Hdb & _ & Hdlg & _).
  - intros (u & ud & doc & Hl & _ & Hacc & Hst).
    apply landlord_Some in Hl as (Hcu & _).
    vm_compute in Hcu. injection Hcu as <-.
    vm_compute in Hacc. injection Hacc as <-.
    apply Hst. reflexivity.
  - vm_compute. intros H. discriminate H.
  - vm_compute. reflexivity.
  - vm_compute. reflexivity.
  - exact (ex_intro _ s' (conj Hrun (conj Hdb Hdlg))).
Defined.

Lemma reject_failed_write_changes_nothing_witness :
  ∃ s',
    handleBookingAction "B1" action_rejected
      (Demo.landlord_app 0 active [true]) = (Ok tt, s') ∧
    db (world s') = db (world (Demo.landlord_app 0 active [true])).
Proof.
  edestruct (reject_failed_write_changes_nothing "B1"
               (Demo.landlord_app 0 active [true]))
    as (s' & Hrun & Hdb & _).
  - left. vm_compute. reflexivity.
  - exact (ex_intro _ s' (conj Hrun Hdb)).
Defined.

Lemma confirm_failed_booking_write_keeps_commission_witness :
  ∃ s',
    confirmBookingAcceptance (Cases.selected_B1 3) = (Ok tt, s') ∧
    Db.bookings (db (world s')) = Db.bookings (db (world (Cases.selected_B1 3))) ∧
    ∃ t, toasts s' = toasts (Cases.selected_B1 3) ++ [t] ∧
         variant t = destructive.
Proof.
  edestruct (confirm_failed_booking_write_keeps_commission (Cases.selected_B1 3))
    as (s' & Hrun & _ & Hbk & _ & _ & Ht).
  - vm_compute. reflexivity.
  - vm_compute. reflexivity.
  - vm_compute. reflexivity.
  - left. vm_compute. reflexivity.
  - exact (ex_intro _ s' (conj Hrun (conj Hbk Ht))).
Defined.


Lemma status_keeps_to_band_witness :
  ∃ doc',
    account (runReloading "L1" Cases.two_calls
               (Demo.landlord_app 0 active [])).2 "L1" = Some doc' ∧
    within_band doc'.
Proof.
  refine (status_keeps_to_band Cases.two_calls
            (Demo.landlord_app 0 active [])
            (runReloading "L1" Cases.two_calls (Demo.landlord_app 0 active [])).2
            "L1" (Demo.landlord_doc 0 active) eq_refl _ _ _ _).
  - vm_compute. reflexivity.
  - split; intros _; vm_compute; [reflexivity | intros H; discriminate H].
  - repeat constructor; vm_compute; intros H; discriminate H.
  - vm_compute. reflexivity.
Defined.
